(** * Transaction admission and IP access control of the GitHubStore backend

    A shallow embedding of [githubstore/backend/server.js]: the one-time
    transaction-ID guard ([usedTransactionIds], [validateTransactionId]),
    the IP manager ([ipManager]), the [checkIPAccess] middleware, the admin
    endpoints and the webhook endpoints, followed by the properties the
    specification states about them.

    Conventions of the embedding.
    - A JavaScript string is the list of its UTF-16 code units.
    - A request-supplied JavaScript value is a [jsval].
    - A JavaScript [Set] is the list of its elements in insertion order.
    - Module-level mutable state ([usedTransactionIds], [ipManager]) is
      threaded explicitly as a [ServerState].
    - An [async] handler runs synchronously up to its first [await]; the
      part after the awaited [fetch] is a continuation on the fetch result.
    - Console output is not modelled, except that a template literal
      written to it throws when a value in it cannot be converted to a
      string.

    The second half of the development covers the rest of the server (the
    CORS origin check) and its callers: the two admin tools
    ([admin/ip-admin-tool.js], [ip-admin-tool.js]) and the test script
    ([test-transaction-validation.js]), run against the modelled server
    over a wire that carries their headers. *)

From Stdlib Require Import ZArith NArith List String Ascii Bool Lia.
From stdpp Require Import base decidable numbers strings list.

Import ListNotations.
Local Open Scope bool_scope.

(** ** JavaScript values *)

(** A string: its UTF-16 code units. *)
Abbreviation jsstring := (list N).

(** The code units of an ASCII literal of the source. *)
Definition js (s : string) : jsstring :=
  map N_of_ascii (list_ascii_of_string s).

(** A value as a request can carry it: [undefined] (an absent field or
    header), [null], a boolean, a number (given by its integer value; the
    code only observes whether a number is zero and whether two numbers are
    the same), a string, or an object or array. An object or array is
    given by what the code observes of it: its reference (its identity in
    a [Set]), whether it can be converted to a string, and its own
    properties [name] and [email] ([undefined] when it has none, as for
    every array).

    A parsed JSON object holds no function. Its conversion to a string
    (in a template literal) looks up [toString] and [valueOf]: an own
    property of either name is not callable and is skipped, and
    [Object.prototype.valueOf] returns the object itself, so the
    conversion throws a [TypeError] as soon as the object has an own
    property [toString]; otherwise it gives [[object Object]]. An array
    joins the conversions of its elements and throws when one of them
    does. *)
Inductive jsval : Type :=
  | JUndefined
  | JNull
  | JBool (b : bool)
  | JNumber (z : Z)
  | JString (s : jsstring)
  | JObject (ref : N) (stringifies : bool) (name email : jsval).

#[global] Instance jsval_eq_dec : EqDecision jsval.
Proof. solve_decision. Defined.

(** [typeof v]. *)
Definition typeof (v : jsval) : string :=
  match v with
  | JUndefined => "undefined"
  | JNull => "object"
  | JBool _ => "boolean"
  | JNumber _ => "number"
  | JString _ => "string"
  | JObject _ _ _ _ => "object"
  end.

(** ToBoolean: what [!v] and [v || w] test. *)
Definition truthy (v : jsval) : bool :=
  match v with
  | JUndefined => false
  | JNull => false
  | JBool b => b
  | JNumber z => negb (z =? 0)%Z
  | JString s => negb (bool_decide (s = []))
  | JObject _ _ _ _ => true
  end.

(** Whether [v] can be interpolated into a template literal: the
    conversion of [v] to a string returns. It throws for no primitive
    value. *)
Definition interpolates (v : jsval) : bool :=
  match v with
  | JObject _ stringifies _ _ => stringifies
  | _ => true
  end.

(** [v.name] and [v.email] for a value [v] that is neither [undefined]
    nor [null]: [undefined] on a boolean, a number and a string, whose
    prototypes have no such property. *)
Definition get_name (v : jsval) : jsval :=
  match v with
  | JObject _ _ name _ => name
  | _ => JUndefined
  end.

Definition get_email (v : jsval) : jsval :=
  match v with
  | JObject _ _ _ email => email
  | _ => JUndefined
  end.

(** The code units of a value whose [typeof] is ["string"]. *)
Definition string_value (v : jsval) : jsstring :=
  match v with
  | JString s => s
  | _ => []
  end.

(** [a || b] on values. *)
Definition js_or (a b : jsval) : jsval :=
  if truthy a then a else b.

(** An optional string (a header, an environment variable, an optional
    property) read as a value: absent is [undefined]. *)
Definition of_option (o : option jsstring) : jsval :=
  match o with
  | Some s => JString s
  | None => JUndefined
  end.

(** ** [String.prototype] *)

(** WhiteSpace and LineTerminator code units of ECMAScript, the ones
    [trim] strips. *)
Definition isStrWhiteSpaceChar (c : N) : bool :=
  ((c =? 0x9) || (c =? 0xA) || (c =? 0xB) || (c =? 0xC) || (c =? 0xD)
   || (c =? 0x20) || (c =? 0xA0) || (c =? 0x1680)
   || ((0x2000 <=? c) && (c <=? 0x200A))
   || (c =? 0x2028) || (c =? 0x2029) || (c =? 0x202F) || (c =? 0x205F)
   || (c =? 0x3000) || (c =? 0xFEFF))%N.

Fixpoint trimStart (s : jsstring) : jsstring :=
  match s with
  | [] => []
  | c :: t => if isStrWhiteSpaceChar c then trimStart t else s
  end.

Definition trimEnd (s : jsstring) : jsstring :=
  rev (trimStart (rev s)).

(** [s.trim()]. *)
Definition trim (s : jsstring) : jsstring :=
  trimEnd (trimStart s).

(** [s.includes(' ')]: some code unit of [s] is U+0020. *)
Definition includes_space (s : jsstring) : bool :=
  existsb (N.eqb 0x20) s.

(** The character class [[a-zA-Z0-9_-]]. *)
Definition in_class (c : N) : bool :=
  (((0x61 <=? c) && (c <=? 0x7A))
   || ((0x41 <=? c) && (c <=? 0x5A))
   || ((0x30 <=? c) && (c <=? 0x39))
   || (c =? 0x5F) || (c =? 0x2D))%N.

(** The matcher of [[a-zA-Z0-9_-]+$] at the current position: one class
    character, then either the end of the input or the same again. *)
Fixpoint class_plus_end (s : jsstring) : bool :=
  match s with
  | [] => false
  | c :: t =>
      in_class c && match t with [] => true | _ :: _ => class_plus_end t end
  end.

(** [/^[a-zA-Z0-9_-]+$/.test(s)]: without the [m] flag [^] only matches at
    position 0 and [$] only at the end of the input. *)
Definition regex_test (s : jsstring) : bool :=
  class_plus_end s.

(** ** [Set] *)

Module JSSet.
Section Ops.
Context {A : Type} `{EqDecision A}.

(** The elements in insertion order. *)
Definition t : Type := list A.

Definition empty : t := [].

Definition has (x : A) (s : t) : bool :=
  bool_decide (x ∈ s).

(** [s.add(x)]: appends [x] unless it is already an element. *)
Definition add (x : A) (s : t) : t :=
  if has x s then s else s ++ [x].

(** [s.delete(x)]. *)
Definition delete (x : A) (s : t) : t :=
  filter (λ y, y ≠ x) s.

(** [s.size]. *)
Definition size (s : t) : nat :=
  length s.

(** [Array.from(s)]. *)
Definition to_array (s : t) : list A := s.
End Ops.
Arguments t : clear implicits.
Arguments t A : assert.
End JSSet.

(** ** The transaction-ID guard *)

(** The result object of [validateTransactionId]: [{ valid: true, cleanId }]
    or [{ valid: false, error }]. *)
Inductive Validation : Type :=
  | Valid (cleanId : jsstring)
  | Invalid (error : string).

Definition validateTransactionId
    (usedTransactionIds : JSSet.t jsstring) (transactionId : jsval)
    : Validation :=
  if negb (truthy transactionId)
     || negb (bool_decide (typeof transactionId = "string"))
  then Invalid "Transaction ID must be a non-empty string"
  else
    let cleanId := trim (string_value transactionId) in
    if (length cleanId <? 8)%nat
    then Invalid "Transaction ID must be at least 8 characters long"
    else if (100 <? length cleanId)%nat
    then Invalid "Transaction ID must be less than 100 characters"
    else if includes_space cleanId
    then Invalid "Transaction ID cannot contain spaces"
    else if negb (regex_test cleanId)
    then Invalid
      "Transaction ID can only contain letters, numbers, hyphens, and underscores"
    else if JSSet.has cleanId usedTransactionIds
    then Invalid "Transaction ID has already been used"
    else Valid cleanId.

(** The outcome of the validate-then-mark sequence of the checkout and
    payment handlers. *)
Inductive Admission : Type :=
  | AdmittedId (cleanId : jsstring)
  | Rejected (error : string).

(** The sequence both handlers run on [transactionId]:
    [validateTransactionId(transactionId)], a return when it is not valid,
    [usedTransactionIds.add(validation.cleanId)] otherwise. Nothing is
    awaited between the two calls. *)
Definition validate_and_admit
    (usedTransactionIds : JSSet.t jsstring) (transactionId : jsval)
    : Admission * JSSet.t jsstring :=
  match validateTransactionId usedTransactionIds transactionId with
  | Invalid error => (Rejected error, usedTransactionIds)
  | Valid cleanId => (AdmittedId cleanId, JSSet.add cleanId usedTransactionIds)
  end.

(** ** [ipManager] *)

Record IpManager : Type := mkIpManager {
  blockedIPs : JSSet.t jsval;
  allowedIPs : JSSet.t jsval;
  whitelistMode : bool  (* false = blocklist mode, true = whitelist mode *)
}.

(** The object as the module creates it. *)
Definition ipManager_init : IpManager :=
  {| blockedIPs := JSSet.empty; allowedIPs := JSSet.empty;
     whitelistMode := false |}.

(** [blockIP], [allowIP] and [removeIP] update the two sets and then log
    a template literal that holds [ip]. The definitions give the sets
    after the updates; the log throws when [ip] cannot be interpolated,
    after the sets were updated: see [logs]. *)
Definition blockIP (ip : jsval) (this : IpManager) : IpManager :=
  {| blockedIPs := JSSet.add ip (blockedIPs this);
     allowedIPs := JSSet.delete ip (allowedIPs this);
     whitelistMode := whitelistMode this |}.

Definition allowIP (ip : jsval) (this : IpManager) : IpManager :=
  {| blockedIPs := JSSet.delete ip (blockedIPs this);
     allowedIPs := JSSet.add ip (allowedIPs this);
     whitelistMode := whitelistMode this |}.

Definition removeIP (ip : jsval) (this : IpManager) : IpManager :=
  {| blockedIPs := JSSet.delete ip (blockedIPs this);
     allowedIPs := JSSet.delete ip (allowedIPs this);
     whitelistMode := whitelistMode this |}.

(** Whether the [console.log] that ends [blockIP], [allowIP] and
    [removeIP] returns. *)
Definition logs (ip : jsval) : bool :=
  interpolates ip.

Definition isIPAllowed (clientIP : jsval) (this : IpManager) : bool :=
  if whitelistMode this
  then JSSet.has clientIP (allowedIPs this)
       || (JSSet.size (allowedIPs this) =? 0)%nat
  else negb (JSSet.has clientIP (blockedIPs this)).

(** The object [getStatus] returns. *)
Record Status : Type := mkStatus {
  mode : string;
  blockedCount : nat;
  allowedCount : nat;
  status_blockedIPs : list jsval;
  status_allowedIPs : list jsval
}.

Definition getStatus (this : IpManager) : Status :=
  {| mode := if whitelistMode this then "whitelist" else "blacklist";
     blockedCount := JSSet.size (blockedIPs this);
     allowedCount := JSSet.size (allowedIPs this);
     status_blockedIPs := JSSet.to_array (blockedIPs this);
     status_allowedIPs := JSSet.to_array (allowedIPs this) |}.

(** [this.whitelistMode = mode === 'whitelist']. *)
Definition setMode (mode : jsval) (this : IpManager) : IpManager :=
  {| blockedIPs := blockedIPs this;
     allowedIPs := allowedIPs this;
     whitelistMode := bool_decide (mode = JString (js "whitelist")) |}.

(** ** Requests, responses and the process state *)

(** [process.env]. *)
Record Env : Type := mkEnv {
  ADMIN_KEY : option jsstring;
  API_KEY : option jsstring;
  DISCORD_WEBHOOK_URL : option jsstring
}.

(** What the handlers read of a request. [body] is the parsed JSON object
    as [express.json()] leaves it: its own properties, [[]] when the request
    has no JSON body. *)
Record Request : Type := mkRequest {
  x_forwarded_for : option jsstring;      (* req.headers['x-forwarded-for'] *)
  x_real_ip : option jsstring;            (* req.headers['x-real-ip'] *)
  x_admin_key : option jsstring;          (* req.headers['x-admin-key'] *)
  x_api_key : option jsstring;            (* req.headers['x-api-key'] *)
  connection_remoteAddress : option jsstring; (* req.connection?.remoteAddress *)
  socket_remoteAddress : option jsstring; (* req.socket?.remoteAddress *)
  req_ip : option jsstring;               (* req.ip *)
  body : list (string * jsval)            (* req.body *)
}.

(** [obj.name]: [undefined] when [obj] has no such property. *)
Fixpoint prop (name : string) (obj : list (string * jsval)) : jsval :=
  match obj with
  | [] => JUndefined
  | (k, v) :: rest => if bool_decide (k = name) then v else prop name rest
  end.

(** A template literal: its literal chunks and its interpolated values. *)
Inductive Chunk : Type :=
  | Lit (s : string)
  | Interp (v : jsval).

(** The JSON objects the handlers send. *)
Inductive ResponseBody : Type :=
  | ErrorBody (error : string)
      (* { success: false, error } *)
  | DeniedBody (error : string) (ip : jsval)
      (* { success: false, error, ip } *)
  | StatusBody (status : Status)
      (* { success: true, status } *)
  | AdminBody (message : list Chunk) (status : Status)
      (* { success: true, message, status } *)
  | SentBody (message : string)
      (* { success: true, message } *)
  | ValidatedBody (message : string) (transactionId : jsstring)
      (* { success: true, message, transactionId, validated: true } *).

Record Response : Type := mkResponse {
  status : nat;
  json : ResponseBody
}.

#[global] Instance Chunk_eq_dec : EqDecision Chunk.
Proof. solve_decision. Defined.
#[global] Instance Status_eq_dec : EqDecision Status.
Proof. solve_decision. Defined.
#[global] Instance ResponseBody_eq_dec : EqDecision ResponseBody.
Proof. solve_decision. Defined.
#[global] Instance Response_eq_dec : EqDecision Response.
Proof. solve_decision. Defined.

(** The module-level mutable state. *)
Record ServerState : Type := mkServerState {
  usedTransactionIds : JSSet.t jsstring;
  ipManager : IpManager
}.

(** The state at process start. *)
Definition server_init : ServerState :=
  {| usedTransactionIds := JSSet.empty; ipManager := ipManager_init |}.

(** What is posted to the chat webhook. *)
Inductive Payload : Type :=
  | ForwardedBody (body : list (string * jsval))
  | CheckoutEmbed (cleanId : jsstring)
      (customerName customerEmail customerDiscord : jsval) (clientIP : jsval)
  | PaymentEmbed (cleanId : jsstring)
      (amount cryptoAddress customerInfo : jsval) (clientIP : jsval)
  | TestEmbed.

(** How the awaited [fetch] ends: a response with [ok], a response
    without [ok], or a rejected promise. *)
Inductive FetchResult : Type :=
  | FetchOk
  | FetchNotOk (status : nat)
  | FetchRejected.

(** A handler run up to its first [await]: either it has responded, or it
    has issued the webhook post and responds when that settles. *)
Inductive Outcome : Type :=
  | Done (res : Response)
  | AwaitFetch (url : jsval) (payload : Payload)
      (resume : FetchResult → Response).

Definition Handler : Type :=
  Request → ServerState → Outcome * ServerState.

Definition strict_eq (a b : jsval) : bool :=
  bool_decide (a = b).

(** The expression both [checkIPAccess] and the checkout and payment
    handlers evaluate:
    [req.headers['x-forwarded-for'] || req.headers['x-real-ip'] ||
     req.connection?.remoteAddress || req.socket?.remoteAddress ||
     req.ip || 'Unknown']. *)
Definition clientIP (req : Request) : jsval :=
  js_or (of_option (x_forwarded_for req))
   (js_or (of_option (x_real_ip req))
     (js_or (of_option (connection_remoteAddress req))
       (js_or (of_option (socket_remoteAddress req))
         (js_or (of_option (req_ip req))
           (JString (js "Unknown")))))).

(** The middleware [checkIPAccess(req, res, next)]. *)
Definition checkIPAccess (next : Handler) : Handler :=
  λ req st,
    let clientIP := clientIP req in
    if negb (isIPAllowed clientIP (ipManager st))
    then (Done {| status := 403;
                  json := DeniedBody "Access denied from this IP address"
                                     clientIP |}, st)
    else next req st.

Definition respond (code : nat) (b : ResponseBody) : Outcome :=
  Done {| status := code; json := b |}.

(** ** The admin endpoints *)

Definition default_key : jsval :=
  JString (js
    "splintax_admin_9e3cf7ba59a4b9901492acbf23d1350f60c2624c089b5fd7c2c40fbc9d0ba336").

(** [process.env.ADMIN_KEY || '...']. *)
Definition expectedAdminKey (env : Env) : jsval :=
  js_or (of_option (ADMIN_KEY env)) default_key.

(** [GET /api/admin/ip-status]. *)
Definition admin_ip_status (env : Env) : Handler :=
  λ req st,
    let adminKey := of_option (x_admin_key req) in
    if negb (strict_eq adminKey (expectedAdminKey env))
    then (respond 401 (ErrorBody "Invalid admin key"), st)
    else (respond 200 (StatusBody (getStatus (ipManager st))), st).

(** [POST /api/admin/block-ip]. When the log of [blockIP] throws, the
    sets are updated already; the exception leaves the handler and the
    error-handling middleware of the application answers 500. *)
Definition admin_block_ip (env : Env) : Handler :=
  λ req st,
    let adminKey := of_option (x_admin_key req) in
    if negb (strict_eq adminKey (expectedAdminKey env))
    then (respond 401 (ErrorBody "Invalid admin key"), st)
    else
      let ip := prop "ip" (body req) in
      if negb (truthy ip)
      then (respond 400 (ErrorBody "IP address required"), st)
      else
        let m := blockIP ip (ipManager st) in
        if negb (logs ip)
        then (respond 500 (ErrorBody "Internal server error"),
              {| usedTransactionIds := usedTransactionIds st; ipManager := m |})
        else
          (respond 200
             (AdminBody [Lit "IP "; Interp ip; Lit " blocked successfully"]
                        (getStatus m)),
           {| usedTransactionIds := usedTransactionIds st; ipManager := m |}).

(** [POST /api/admin/allow-ip], with the same way out of [allowIP]. *)
Definition admin_allow_ip (env : Env) : Handler :=
  λ req st,
    let adminKey := of_option (x_admin_key req) in
    if negb (strict_eq adminKey (expectedAdminKey env))
    then (respond 401 (ErrorBody "Invalid admin key"), st)
    else
      let ip := prop "ip" (body req) in
      if negb (truthy ip)
      then (respond 400 (ErrorBody "IP address required"), st)
      else
        let m := allowIP ip (ipManager st) in
        if negb (logs ip)
        then (respond 500 (ErrorBody "Internal server error"),
              {| usedTransactionIds := usedTransactionIds st; ipManager := m |})
        else
          (respond 200
             (AdminBody [Lit "IP "; Interp ip; Lit " allowed successfully"]
                        (getStatus m)),
           {| usedTransactionIds := usedTransactionIds st; ipManager := m |}).

(** [POST /api/admin/remove-ip], with the same way out of [removeIP]. *)
Definition admin_remove_ip (env : Env) : Handler :=
  λ req st,
    let adminKey := of_option (x_admin_key req) in
    if negb (strict_eq adminKey (expectedAdminKey env))
    then (respond 401 (ErrorBody "Invalid admin key"), st)
    else
      let ip := prop "ip" (body req) in
      if negb (truthy ip)
      then (respond 400 (ErrorBody "IP address required"), st)
      else
        let m := removeIP ip (ipManager st) in
        if negb (logs ip)
        then (respond 500 (ErrorBody "Internal server error"),
              {| usedTransactionIds := usedTransactionIds st; ipManager := m |})
        else
          (respond 200
             (AdminBody [Lit "IP "; Interp ip; Lit " removed from all lists"]
                        (getStatus m)),
           {| usedTransactionIds := usedTransactionIds st; ipManager := m |}).

(** The double-quote character (U+0022). *)
Definition dquote : string :=
  String (ascii_of_nat 34) EmptyString.

(** The message of the set-mode endpoint: Mode must be, then whitelist
    and blacklist, each between double quotes, joined by or. *)
Definition mode_error : string :=
  "Mode must be " ++ dquote ++ "whitelist" ++ dquote ++ " or "
    ++ dquote ++ "blacklist" ++ dquote.

(** [['whitelist', 'blacklist'].includes(mode)]. *)
Definition is_mode_literal (mode : jsval) : bool :=
  bool_decide (mode ∈ [JString (js "whitelist"); JString (js "blacklist")]).

(** [POST /api/admin/set-mode]. *)
Definition admin_set_mode (env : Env) : Handler :=
  λ req st,
    let adminKey := of_option (x_admin_key req) in
    if negb (strict_eq adminKey (expectedAdminKey env))
    then (respond 401 (ErrorBody "Invalid admin key"), st)
    else
      let mode := prop "mode" (body req) in
      if negb (truthy mode) || negb (is_mode_literal mode)
      then (respond 400 (ErrorBody mode_error), st)
      else
        let m := setMode mode (ipManager st) in
        (respond 200
           (AdminBody [Lit "IP filtering mode set to "; Interp mode]
                      (getStatus m)),
         {| usedTransactionIds := usedTransactionIds st; ipManager := m |}).

(** ** The webhook endpoints *)

(** [process.env.API_KEY || '...']. *)
Definition expectedApiKey (env : Env) : jsval :=
  js_or (of_option (API_KEY env)) default_key.

(** [process.env.DISCORD_WEBHOOK_URL || 'https://discord.com/api/webhooks/...']. *)
Definition webhookUrl (env : Env) : jsval :=
  js_or (of_option (DISCORD_WEBHOOK_URL env))
    (JString (js
      "https://discord.com/api/webhooks/1421968496186622144/GpKwiX1p5QShJyFqHg4sj_Y1F-mwd9zjd-AKk6CoMnuaBP4ossChi2xS1PwXkjzUZHV1")).

(** [POST /api/webhook]: forwards the body. The second await of the
    not-[ok] branch ([response.text()], only logged) is not modelled. *)
Definition webhook (env : Env) : Handler :=
  λ req st,
    let webhookUrl := webhookUrl env in
    if negb (truthy webhookUrl)
    then (respond 500 (ErrorBody "Webhook configuration missing"), st)
    else if (length (body req) =? 0)%nat
    then (respond 400 (ErrorBody "Request body is required"), st)
    else
      (AwaitFetch webhookUrl (ForwardedBody (body req))
         (λ response,
            match response with
            | FetchOk =>
                {| status := 200; json := SentBody "Webhook sent successfully" |}
            | FetchNotOk _ =>
                {| status := 500;
                   json := ErrorBody "Failed to send webhook to Discord" |}
            | FetchRejected =>
                {| status := 500; json := ErrorBody "Internal server error" |}
            end),
       st).

(** The handler of [POST /api/webhook/checkout], after [checkIPAccess].
    The embed is built after the identifier was added to the ledger, from
    a template literal that holds [customerName], [customerEmail] and
    [customerDiscord || 'Not provided']. When one of them cannot be
    interpolated the template throws, and the [catch] of the handler
    answers 500 before anything is posted. *)
Definition webhook_checkout (env : Env) : Handler :=
  λ req st,
    let apiKey := of_option (x_api_key req) in
    if negb (strict_eq apiKey (expectedApiKey env))
    then (respond 401 (ErrorBody "Invalid API key"), st)
    else
      let transactionId := prop "transactionId" (body req) in
      let customerName := prop "customerName" (body req) in
      let customerEmail := prop "customerEmail" (body req) in
      let customerDiscord := prop "customerDiscord" (body req) in
      if negb (truthy transactionId) || negb (truthy customerName)
         || negb (truthy customerEmail)
      then (respond 400
              (ErrorBody
                 "Missing required fields: transactionId, customerName, customerEmail"),
            st)
      else
        match validate_and_admit (usedTransactionIds st) transactionId with
        | (Rejected error, _) => (respond 400 (ErrorBody error), st)
        | (AdmittedId cleanId, used) =>
            if negb (interpolates customerName && interpolates customerEmail
                     && interpolates
                          (js_or customerDiscord (JString (js "Not provided"))))
            then
              (respond 500 (ErrorBody "Failed to send checkout notification"),
               {| usedTransactionIds := used; ipManager := ipManager st |})
            else
              (AwaitFetch (webhookUrl env)
                 (CheckoutEmbed cleanId customerName customerEmail
                    (js_or customerDiscord (JString (js "Not provided")))
                    (clientIP req))
                 (λ response,
                    match response with
                    | FetchOk =>
                        {| status := 200;
                           json := ValidatedBody "Checkout notification sent"
                                                 cleanId |}
                    | _ =>
                        {| status := 500;
                           json := ErrorBody
                                     "Failed to send checkout notification" |}
                    end),
               {| usedTransactionIds := used; ipManager := ipManager st |})
        end.

(** The handler of [POST /api/webhook/payment], after [checkIPAccess].
    Its embed, built after the identifier was added to the ledger, holds
    [amount || 'Unknown'] and [cryptoAddress || 'Not provided'] and, when
    [customerInfo] is truthy, [customerInfo.name || 'Unknown'] and
    [customerInfo.email || 'Unknown']. *)
Definition webhook_payment (env : Env) : Handler :=
  λ req st,
    let apiKey := of_option (x_api_key req) in
    if negb (strict_eq apiKey (expectedApiKey env))
    then (respond 401 (ErrorBody "Invalid API key"), st)
    else
      let transactionId := prop "transactionId" (body req) in
      let amount := prop "amount" (body req) in
      let cryptoAddress := prop "cryptoAddress" (body req) in
      let customerInfo := prop "customerInfo" (body req) in
      if negb (truthy transactionId)
      then (respond 400
              (ErrorBody "Missing required field: transactionId"), st)
      else
        match validate_and_admit (usedTransactionIds st) transactionId with
        | (Rejected error, _) => (respond 400 (ErrorBody error), st)
        | (AdmittedId cleanId, used) =>
            if negb (interpolates (js_or amount (JString (js "Unknown")))
                     && interpolates
                          (js_or cryptoAddress (JString (js "Not provided")))
                     && (negb (truthy customerInfo)
                         || (interpolates
                               (js_or (get_name customerInfo)
                                      (JString (js "Unknown")))
                             && interpolates
                                  (js_or (get_email customerInfo)
                                         (JString (js "Unknown"))))))
            then
              (respond 500 (ErrorBody "Failed to send payment notification"),
               {| usedTransactionIds := used; ipManager := ipManager st |})
            else
              (AwaitFetch (webhookUrl env)
                 (PaymentEmbed cleanId
                    (js_or amount (JString (js "Unknown")))
                    (js_or cryptoAddress (JString (js "Not provided")))
                    customerInfo
                    (clientIP req))
                 (λ response,
                    match response with
                    | FetchOk =>
                        {| status := 200;
                           json := ValidatedBody "Payment notification sent"
                                                 cleanId |}
                    | _ =>
                        {| status := 500;
                           json := ErrorBody
                                     "Failed to send payment notification" |}
                    end),
               {| usedTransactionIds := used; ipManager := ipManager st |})
        end.

(** [POST /api/webhook/test]. The [timestamp] property of its success
    body is not modelled. *)
Definition webhook_test (env : Env) : Handler :=
  λ req st,
    (AwaitFetch (webhookUrl env) TestEmbed
       (λ response,
          match response with
          | FetchOk =>
              {| status := 200;
                 json := SentBody "Test webhook sent successfully" |}
          | _ =>
              {| status := 500;
                 json := ErrorBody "Failed to send test webhook" |}
          end),
     st).

(** ** The application *)

(** The routes that read or write the process state or post to the chat
    webhook. ([/health], [/api/config], the static files and the 404
    handler do neither.) *)
Inductive Route : Type :=
  | GET_admin_ip_status
  | POST_admin_block_ip
  | POST_admin_allow_ip
  | POST_admin_remove_ip
  | POST_admin_set_mode
  | POST_webhook
  | POST_webhook_checkout
  | POST_webhook_payment
  | POST_webhook_test.

(** The handler chain registered for each route. *)
Definition app (env : Env) (r : Route) : Handler :=
  match r with
  | GET_admin_ip_status => admin_ip_status env
  | POST_admin_block_ip => admin_block_ip env
  | POST_admin_allow_ip => admin_allow_ip env
  | POST_admin_remove_ip => admin_remove_ip env
  | POST_admin_set_mode => admin_set_mode env
  | POST_webhook => webhook env
  | POST_webhook_checkout => checkIPAccess (webhook_checkout env)
  | POST_webhook_payment => checkIPAccess (webhook_payment env)
  | POST_webhook_test => webhook_test env
  end.

(** ** The event loop

    Node runs one callback at a time, to completion. A request's handler
    chain runs from its start to its first [await] in one turn; the rest of
    an [async] handler runs in a later turn, once the awaited [fetch] has
    settled. Between turns, other requests' turns may run. *)

Inductive Turn : Type :=
  | Arrive (r : Route) (req : Request)
      (* a request reaches its handler chain *)
  | Settle (conn : nat) (response : FetchResult)
      (* the fetch awaited for the [conn]-th request settles *).

Record Loop : Type := mkLoop {
  server : ServerState;
  outcomes : list Outcome;        (* of each request, in order of arrival *)
  replies : list (nat * Response) (* sent after a fetch settled *)
}.

Definition loop_init : Loop :=
  {| server := server_init; outcomes := []; replies := [] |}.

Definition turn (env : Env) (l : Loop) (t : Turn) : Loop :=
  match t with
  | Arrive r req =>
      let '(o, st) := app env r req (server l) in
      {| server := st; outcomes := outcomes l ++ [o]; replies := replies l |}
  | Settle conn response =>
      match outcomes l !! conn with
      | Some (AwaitFetch _ _ resume) =>
          if bool_decide (conn ∈ (replies l).*1) then l
          else {| server := server l; outcomes := outcomes l;
                  replies := replies l ++ [(conn, resume response)] |}
      | _ => l
      end
  end.

Definition run (env : Env) (ts : list Turn) (l : Loop) : Loop :=
  foldl (turn env) l ts.

(** ** The specification's vocabulary *)

(** The error kinds of the ledger (specification, section 7). *)
Inductive ValidationError : Type :=
  | Empty
  | TooShort
  | TooLong
  | ContainsWhitespace
  | InvalidCharset
  | AlreadyUsed.

(** The message [validateTransactionId] gives for each kind. *)
Definition error_message (e : ValidationError) : string :=
  match e with
  | Empty => "Transaction ID must be a non-empty string"
  | TooShort => "Transaction ID must be at least 8 characters long"
  | TooLong => "Transaction ID must be less than 100 characters"
  | ContainsWhitespace => "Transaction ID cannot contain spaces"
  | InvalidCharset =>
      "Transaction ID can only contain letters, numbers, hyphens, and underscores"
  | AlreadyUsed => "Transaction ID has already been used"
  end.

(** The allowed characters [A-Za-z0-9_-], one by one. *)
Definition charset : jsstring :=
  js "ABCDEFGHIJKLMNOPQRSTUVWXYZabcdefghijklmnopqrstuvwxyz0123456789_-".

(** When a rejection applies (section 4.1, items 1 to 6), on the trimmed
    input. *)
Definition applicable
    (ledger : JSSet.t jsstring) (raw : jsval) (e : ValidationError) : Prop :=
  let trimmed := trim (string_value raw) in
  match e with
  | Empty => raw = JString [] ∨ typeof raw ≠ "string"
  | TooShort => length trimmed < 8
  | TooLong => 100 < length trimmed
  | ContainsWhitespace => 0x20%N ∈ trimmed
  | InvalidCharset => Exists (λ c, c ∉ charset) trimmed
  | AlreadyUsed => trimmed ∈ ledger
  end.

#[global] Instance applicable_dec ledger raw e :
  Decision (applicable ledger raw e).
Proof. destruct e; unfold applicable; simpl; apply _. Defined.

(** The order in which the rejections are tried. *)
Definition rejection_order : list ValidationError :=
  [Empty; TooShort; TooLong; ContainsWhitespace; InvalidCharset; AlreadyUsed].

(** Follows the specification's words (section 4.1), to be compared with
    [validate_and_admit]: the first applicable rejection in order, with the
    ledger untouched; otherwise the trimmed value is inserted and returned. *)
Definition spec_validate_and_admit
    (ledger : JSSet.t jsstring) (raw : jsval)
    : Admission * JSSet.t jsstring :=
  match List.find (λ e, bool_decide (applicable ledger raw e)) rejection_order with
  | Some e => (Rejected (error_message e), ledger)
  | None =>
      let trimmed := trim (string_value raw) in
      (AdmittedId trimmed, JSSet.add trimmed ledger)
  end.

(** A well-formed identifier: 8 to 100 characters of the allowed set
    ([^[A-Za-z0-9_-]{8,100}$], section 3). *)
Definition well_formed (x : jsstring) : Prop :=
  8 ≤ length x ≤ 100 ∧ Forall (λ c, c ∈ charset) x.

(** The ledger after a sequence of admission calls. *)
Definition admit_all
    (ledger : JSSet.t jsstring) (raws : list jsval) : JSSet.t jsstring :=
  foldl (λ used raw, (validate_and_admit used raw).2) ledger raws.

(** The operations on the Gate (section 4.2). *)
Inductive GateOp : Type :=
  | Block (addr : jsval)
  | Allow (addr : jsval)
  | Remove (addr : jsval)
  | SetMode (mode : jsval).

Definition gate_op (g : IpManager) (op : GateOp) : IpManager :=
  match op with
  | Block addr => blockIP addr g
  | Allow addr => allowIP addr g
  | Remove addr => removeIP addr g
  | SetMode mode => setMode mode g
  end.

Definition gate_ops (ops : list GateOp) (g : IpManager) : IpManager :=
  foldl gate_op g ops.

(** No address is in both sets. *)
Definition disjoint_sets (g : IpManager) : Prop :=
  ∀ addr, ¬ (addr ∈ blockedIPs g ∧ addr ∈ allowedIPs g).

(** A source of the client address resolves when it is present and not
    the empty string. *)
Definition resolves (o : option jsstring) : bool :=
  match o with
  | Some (_ :: _) => true
  | _ => false
  end.

(** The first of the candidates that resolves, [fallback] if none does. *)
Fixpoint first_resolved
    (candidates : list (option jsstring)) (fallback : jsstring) : jsstring :=
  match candidates with
  | [] => fallback
  | Some (c :: s) :: _ => c :: s
  | _ :: rest => first_resolved rest fallback
  end.

(** The transport-level peer address of a request: the socket's remote
    address, which the code reads as [req.connection.remoteAddress],
    [req.socket.remoteAddress] and [req.ip], in that order. *)
Definition peer_address (req : Request) : option jsstring :=
  if resolves (connection_remoteAddress req) then connection_remoteAddress req
  else if resolves (socket_remoteAddress req) then socket_remoteAddress req
  else req_ip req.

(** Follows the specification's words (section 4.2), to be compared with
    [clientIP]: forwarded-for header, then real-IP header, then peer
    address, then the sentinel. *)
Definition spec_resolve_client_address (req : Request) : jsstring :=
  first_resolved [x_forwarded_for req; x_real_ip req; peer_address req]
                 (js "Unknown").

(** The key a request presents is the configured secret. *)
Definition authorized (env : Env) (req : Request) : Prop :=
  of_option (x_admin_key req) = expectedAdminKey env.

(** The admin endpoints. *)
Definition is_admin (r : Route) : bool :=
  match r with
  | GET_admin_ip_status | POST_admin_block_ip | POST_admin_allow_ip
  | POST_admin_remove_ip | POST_admin_set_mode => true
  | _ => false
  end.

(** The number of elements of [l] that satisfy [p]. *)
Definition count {A : Type} (p : A → bool) (l : list A) : nat :=
  length (List.filter p l).

(** The answer of the checkout and of the payment handler when building
    the notification throws. In the part of a handler that runs before
    the post, nothing else leads to it, and the identifier is in the
    ledger by then. *)
Definition embed_failed (res : Response) : bool :=
  bool_decide
    (res ∈ [ {| status := 500;
                json := ErrorBody "Failed to send checkout notification" |};
             {| status := 500;
                json := ErrorBody "Failed to send payment notification" |} ]).

(** The outcome of a request whose identifier [x] was admitted: the
    notification for [x] has been issued, or building it failed after [x]
    was marked used. *)
Definition is_admitted (x : jsstring) (o : Outcome) : bool :=
  match o with
  | AwaitFetch _ (CheckoutEmbed cleanId _ _ _ _) _ => bool_decide (cleanId = x)
  | AwaitFetch _ (PaymentEmbed cleanId _ _ _ _) _ => bool_decide (cleanId = x)
  | Done res => embed_failed res
  | _ => false
  end.

(** The outcome of a request rejected because its identifier was used. *)
Definition is_already_used (o : Outcome) : bool :=
  match o with
  | Done res =>
      bool_decide (res = {| status := 400;
                            json := ErrorBody (error_message AlreadyUsed) |})
  | _ => false
  end.

(** A request to the checkout or the payment endpoint that gets as far as
    the admission of its [transactionId], a string that trims to [x]: the
    gate [g] lets its address through, it presents the API key, and the
    fields the handler requires are there. *)
Definition admission_call
    (env : Env) (g : IpManager) (x : jsstring) (r : Route) (req : Request)
    : Prop :=
  isIPAllowed (clientIP req) g = true
  ∧ of_option (x_api_key req) = expectedApiKey env
  ∧ (∃ s, prop "transactionId" (body req) = JString s ∧ s ≠ [] ∧ trim s = x)
  ∧ (r = POST_webhook_payment
     ∨ r = POST_webhook_checkout
       ∧ truthy (prop "customerName" (body req)) = true
       ∧ truthy (prop "customerEmail" (body req)) = true).

(** A turn of a run in which the only requests are admission calls for [x]. *)
Definition admission_turn
    (env : Env) (g : IpManager) (x : jsstring) (t : Turn) : Prop :=
  match t with
  | Arrive r req => admission_call env g x r req
  | Settle _ _ => True
  end.

(** The number of requests that arrive in a run. *)
Definition arrivals (ts : list Turn) : nat :=
  count (λ t, match t with Arrive _ _ => true | Settle _ _ => false end) ts.

(** The Gate operation an admin request asks for: none for the status
    read, for a request without an address, and for a mode that is not one
    of the two literals. *)
Definition admin_op (r : Route) (req : Request) : option GateOp :=
  let ip := prop "ip" (body req) in
  let mode := prop "mode" (body req) in
  match r with
  | POST_admin_block_ip => if truthy ip then Some (Block ip) else None
  | POST_admin_allow_ip => if truthy ip then Some (Allow ip) else None
  | POST_admin_remove_ip => if truthy ip then Some (Remove ip) else None
  | POST_admin_set_mode =>
      if bool_decide (mode = JString (js "whitelist")
                      ∨ mode = JString (js "blacklist"))
      then Some (SetMode mode) else None
  | _ => None
  end.

(** The value a Gate operation is about. *)
Definition op_value (op : GateOp) : jsval :=
  match op with
  | Block addr | Allow addr | Remove addr => addr
  | SetMode mode => mode
  end.

(** The confirmation message of each admin endpoint that changes the
    Gate. *)
Definition admin_message (r : Route) (req : Request) : list Chunk :=
  match r with
  | POST_admin_block_ip =>
      [Lit "IP "; Interp (prop "ip" (body req)); Lit " blocked successfully"]
  | POST_admin_allow_ip =>
      [Lit "IP "; Interp (prop "ip" (body req)); Lit " allowed successfully"]
  | POST_admin_remove_ip =>
      [Lit "IP "; Interp (prop "ip" (body req)); Lit " removed from all lists"]
  | POST_admin_set_mode =>
      [Lit "IP filtering mode set to "; Interp (prop "mode" (body req))]
  | _ => []
  end.

(** The error of an admin request that asks for no Gate operation: the
    address is missing (MissingAddress, section 7), or the mode is not one
    of the two literals (InvalidMode). *)
Definition admin_error (r : Route) : string :=
  match r with
  | POST_admin_set_mode => mode_error
  | _ => "IP address required"
  end.

(** The process state with its gate replaced. *)
Definition with_gate (st : ServerState) (g : IpManager) : ServerState :=
  {| usedTransactionIds := usedTransactionIds st; ipManager := g |}.

(** The response to a request the gate denies. *)
Definition denied (addr : jsval) : Outcome :=
  respond 403 (DeniedBody "Access denied from this IP address" addr).

(** The outcome is a post to the chat webhook. *)
Definition dispatches (o : Outcome) : bool :=
  match o with
  | AwaitFetch _ _ _ => true
  | Done _ => false
  end.


(** ** Further vocabulary *)

(** A string of white space only. *)
Definition blank (s : jsstring) : Prop :=
  Forall (λ c, isStrWhiteSpaceChar c = true) s.

(** A request with its forwarded-for header replaced. *)
Definition with_forwarded_for (req : Request) (value : option jsstring)
    : Request :=
  {| x_forwarded_for := value;
     x_real_ip := x_real_ip req;
     x_admin_key := x_admin_key req;
     x_api_key := x_api_key req;
     connection_remoteAddress := connection_remoteAddress req;
     socket_remoteAddress := socket_remoteAddress req;
     req_ip := req_ip req;
     body := body req |}.

(** ** The CORS origin check of the server *)

(** What the [origin] function passes to its callback: [callback(null,
    true)] or [callback(new Error(message))]. *)
Inductive CorsDecision : Type :=
  | CorsAllowed
  | CorsError (message : string).

(** [s.replace(/\/$/, '')]: [s] without its last character when that is a
    slash. *)
Definition replace_trailing_slash (s : jsstring) : jsstring :=
  match rev s with
  | c :: r => if (c =? 0x2F)%N then rev r else s
  | [] => s
  end.

(** [v + '/'] for [v] a string or [undefined]; [undefined] is converted to
    the string undefined. *)
Definition plus_slash (v : option jsstring) : jsstring :=
  match v with
  | Some s => s ++ js "/"
  | None => js "undefined" ++ js "/"
  end.

(** The array [allowedOrigins], given [process.env.FRONTEND_URL]. *)
Definition allowedOrigins (FRONTEND_URL : option jsstring) : list jsval :=
  [of_option FRONTEND_URL;
   of_option (option_map replace_trailing_slash FRONTEND_URL);
   JString (plus_slash (option_map replace_trailing_slash FRONTEND_URL));
   JString (js "https://githubstore.netlify.app");
   JString (js "https://githubstore.netlify.app/");
   JString (js "http://localhost:3000");
   JString (js "http://localhost:8080")].

(** The [origin] function given to [cors], on the [Origin] header of a
    request. *)
Definition cors_origin (FRONTEND_URL origin : option jsstring) : CorsDecision :=
  if negb (truthy (of_option origin)) then CorsAllowed
  else if bool_decide (of_option origin ∈ allowedOrigins FRONTEND_URL)
  then CorsAllowed
  else CorsError "Not allowed by CORS".

(** ** Regular expressions of the admin tools *)

(** The part of the regular-expression syntax the tools use: nothing,
    the empty string, a character of a range, a sequence and an
    alternative. *)
Inductive regex : Type :=
  | Void
  | Eps
  | Range (lo hi : N)
  | Cat (r1 r2 : regex)
  | Alt (r1 r2 : regex).

(** A single character. *)
Definition Chr (c : N) : regex := Range c c.

(** [r?]. *)
Definition Opt (r : regex) : regex := Alt r Eps.

(** [r{n}]. *)
Fixpoint Times (n : nat) (r : regex) : regex :=
  match n with
  | 0 => Eps
  | S m => Cat r (Times m r)
  end.

(** Whether [r] matches the empty string. *)
Fixpoint nullable (r : regex) : bool :=
  match r with
  | Void => false
  | Eps => true
  | Range _ _ => false
  | Cat r1 r2 => nullable r1 && nullable r2
  | Alt r1 r2 => nullable r1 || nullable r2
  end.

(** What is left of [r] to match after the character [c]. *)
Fixpoint deriv (c : N) (r : regex) : regex :=
  match r with
  | Void => Void
  | Eps => Void
  | Range lo hi => if ((lo <=? c) && (c <=? hi))%N then Eps else Void
  | Cat r1 r2 =>
      if nullable r1
      then Alt (Cat (deriv c r1) r2) (deriv c r2)
      else Cat (deriv c r1) r2
  | Alt r1 r2 => Alt (deriv c r1) (deriv c r2)
  end.

(** [/^r$/.test(s)]: [r] matches the whole of [s]. *)
Definition re_test (r : regex) (s : jsstring) : bool :=
  nullable (foldl (λ r c, deriv c r) r s).

(** [(?:25[0-5]|2[0-4][0-9]|[01]?[0-9][0-9]?)]. *)
Definition octet_re : regex :=
  Alt (Cat (Chr 0x32) (Cat (Chr 0x35) (Range 0x30 0x35)))
   (Alt (Cat (Chr 0x32) (Cat (Range 0x30 0x34) (Range 0x30 0x39)))
        (Cat (Opt (Range 0x30 0x31))
           (Cat (Range 0x30 0x39) (Opt (Range 0x30 0x39))))).

(** The [ipRegex] of the interactive tool:
    [^(?:(?:25[0-5]|2[0-4][0-9]|[01]?[0-9][0-9]?)\.){3}(?:25[0-5]|2[0-4][0-9]|[01]?[0-9][0-9]?)$]. *)
Definition ipRegex : regex :=
  Cat (Times 3 (Cat octet_re (Chr 0x2E))) octet_re.

(** The strings a regular expression denotes. *)
Fixpoint lang (r : regex) (s : jsstring) : Prop :=
  match r with
  | Void => False
  | Eps => s = []
  | Range lo hi => ∃ c, s = [c] ∧ (lo ≤ c ≤ hi)%N
  | Cat r1 r2 => ∃ s1 s2, s = s1 ++ s2 ∧ lang r1 s1 ∧ lang r2 s2
  | Alt r1 r2 => lang r1 s ∨ lang r2 s
  end.

(** A decimal digit. *)
Definition is_digit (c : N) : Prop := (0x30 ≤ c ≤ 0x39)%N.

(** The number a string of digits writes. *)
Definition decimal (s : jsstring) : N :=
  foldl (λ n c, 10 * n + (c - 0x30))%N 0%N s.

(** One to three digits that write a number up to 255. *)
Definition is_octet (s : jsstring) : Prop :=
  1 ≤ length s ≤ 3 ∧ Forall is_digit s ∧ (decimal s ≤ 255)%N.

(** Four octets separated by dots. *)
Definition is_dotted_quad (s : jsstring) : Prop :=
  ∃ a b c d,
    s = a ++ js "." ++ b ++ js "." ++ c ++ js "." ++ d
    ∧ is_octet a ∧ is_octet b ∧ is_octet c ∧ is_octet d.

(** ** The interactive admin tool ([ip-admin-tool.js]) *)

(** What [blockIP] and [allowIP] of the interactive tool send to the
    server for an answer typed at the prompt ([askQuestion] trims it):
    nothing when the answer is empty or does not match [ipRegex], otherwise
    the endpoint and the data of the request. *)
Definition menu_blockIP (answer : jsstring)
    : option (Route * list (string * jsval)) :=
  let ip := trim answer in
  if negb (truthy (JString ip)) then None
  else if negb (re_test ipRegex ip) then None
  else Some (POST_admin_block_ip, [("ip", JString ip)]).

Definition menu_allowIP (answer : jsstring)
    : option (Route * list (string * jsval)) :=
  let ip := trim answer in
  if negb (truthy (JString ip)) then None
  else if negb (re_test ipRegex ip) then None
  else Some (POST_admin_allow_ip, [("ip", JString ip)]).

(** [removeIP] of the interactive tool: no format check. *)
Definition menu_removeIP (answer : jsstring)
    : option (Route * list (string * jsval)) :=
  let ip := trim answer in
  if negb (truthy (JString ip)) then None
  else Some (POST_admin_remove_ip, [("ip", JString ip)]).

(** The verdict [testIP] of the interactive tool computes from the status
    the server returned. *)
Definition testIP (status : Status) (ip : jsstring) : bool :=
  if bool_decide (mode status = "whitelist")
  then bool_decide (JString ip ∈ status_allowedIPs status)
       || (length (status_allowedIPs status) =? 0)%nat
  else negb (bool_decide (JString ip ∈ status_blockedIPs status)).

(** ** From a tool to the server *)

(** What becomes of the value a client sets for a request header: [None]
    when the HTTP library of the client refuses the value, so that no
    request is sent; otherwise the value the server reads. The libraries
    in between ([fetch] of Node and of [node-fetch], the HTTP parser of
    the server) are not part of the repository: they are a parameter of
    the tools, and the properties of the tools say what they assume of
    them. *)
Definition Wire : Type := jsstring → option jsstring.

(** A visible ASCII character. *)
Definition visible (c : N) : bool :=
  ((0x21 <=? c) && (c <=? 0x7E))%N.

(** Space and horizontal tab, the blanks HTTP allows around a header
    value. *)
Definition is_blank (c : N) : bool :=
  ((c =? 0x20) || (c =? 0x9))%N.

(** The string starts with a blank. *)
Definition starts_blank (s : jsstring) : bool :=
  match s with
  | c :: _ => is_blank c
  | [] => false
  end.

(** The string starts or ends with a blank. *)
Definition blank_ended (s : jsstring) : bool :=
  starts_blank s || starts_blank (rev s).

(** A value of at most 256 visible ASCII characters arrives as it was
    set. *)
Definition header_transparent (wire : Wire) : Prop :=
  ∀ s, forallb visible s = true → length s ≤ 256 → wire s = Some s.

(** The blanks around a header value are not part of it: what arrives
    neither starts nor ends with one. *)
Definition header_stripped (wire : Wire) : Prop :=
  ∀ s k, wire s = Some k → blank_ended k = false.

(** HTTP white space: tab, line feed, carriage return and space. *)
Definition http_whitespace (c : N) : bool :=
  ((c =? 0x9) || (c =? 0xA) || (c =? 0xD) || (c =? 0x20))%N.

Fixpoint strip_start (s : jsstring) : jsstring :=
  match s with
  | [] => []
  | c :: t => if http_whitespace c then strip_start t else s
  end.

(** A wire with both properties, in the manner of the Fetch standard: it
    strips the HTTP white space at both ends and refuses what then holds a
    character other than a tab, U+0020 to U+007E and U+0080 to U+00FF. *)
Definition stripping_wire : Wire :=
  λ s,
    let v := rev (strip_start (rev (strip_start s))) in
    if forallb (λ c, (c =? 0x9) || ((0x20 <=? c) && (c <=? 0x7E))
                     || ((0x80 <=? c) && (c <=? 0xFF)))%N v
    then Some v else None.

(** ** The command-line admin tool ([admin/ip-admin-tool.js]) *)

(** What [main] does for [process.argv.slice(2)]: send a request to the
    server, print the help, or exit with code 1 before sending anything. *)
Inductive CliAction : Type :=
  | CliSend (r : Route) (data : list (string * jsval))
  | CliHelp
  | CliExit1.

(** The [switch] of [main] with the check each command function makes
    before its request; [command] and [option] are [args[0]] and [args[1]]:
    a command-line argument is a string, an absent one is [undefined]. *)
Definition cli_action (command option : option jsstring) : CliAction :=
  let command := of_option command in
  let option := of_option option in
  if strict_eq command (JString (js "status"))
  then CliSend GET_admin_ip_status []
  else if strict_eq command (JString (js "block"))
  then if negb (truthy option) then CliExit1
       else CliSend POST_admin_block_ip [("ip", option)]
  else if strict_eq command (JString (js "allow"))
  then if negb (truthy option) then CliExit1
       else CliSend POST_admin_allow_ip [("ip", option)]
  else if strict_eq command (JString (js "remove"))
  then if negb (truthy option) then CliExit1
       else CliSend POST_admin_remove_ip [("ip", option)]
  else if strict_eq command (JString (js "mode"))
  then if negb (truthy option) || negb (is_mode_literal option) then CliExit1
       else CliSend POST_admin_set_mode [("mode", option)]
  else if bool_decide (command ∈ [JString (js "help"); JString (js "--help");
                                  JString (js "-h")])
  then CliHelp
  else CliExit1.

(** [process.env.ADMIN_KEY || '...'] of [admin/ip-admin-tool.js]. *)
Definition cli_ADMIN_KEY (ADMIN_KEY : option jsstring) : jsval :=
  js_or (of_option ADMIN_KEY) default_key.

(** [process.env.ADMIN_KEY || 'admin-secret-key-2024'] of
    [ip-admin-tool.js]. *)
Definition menu_ADMIN_KEY (ADMIN_KEY : option jsstring) : jsval :=
  js_or (of_option ADMIN_KEY) (JString (js "admin-secret-key-2024")).

(** The request [makeRequest] of the tools produces at the server, if
    [fetch] sends one: the admin key of the tool as the wire delivers it,
    the data as the body, no API key; [via] stands for what the network in
    between contributes (the peer address, headers a proxy adds). *)
Definition makeRequest
    (wire : Wire) (ADMIN_KEY : jsval) (via : Request)
    (data : list (string * jsval)) : option Request :=
  match wire (string_value ADMIN_KEY) with
  | Some key =>
      Some {| x_forwarded_for := x_forwarded_for via;
              x_real_ip := x_real_ip via;
              x_admin_key := Some key;
              x_api_key := None;
              connection_remoteAddress := connection_remoteAddress via;
              socket_remoteAddress := socket_remoteAddress via;
              req_ip := req_ip via;
              body := data |}
  | None => None
  end.

(** [response.ok]: the status is in 200..299. *)
Definition response_ok (o : Outcome) : bool :=
  match o with
  | Done res => (200 <=? status res)%nat && (status res <=? 299)%nat
  | AwaitFetch _ _ _ => false
  end.

(** Whether [showStatus] gets through printing the result: it reads
    [result.status] and writes each listed address into a template
    literal. *)
Definition shows (o : Outcome) : bool :=
  match o with
  | Done {| json := StatusBody s |} =>
      forallb interpolates (status_blockedIPs s ++ status_allowedIPs s)
  | _ => false
  end.

(** Every address on the lists of the gate can be written into a
    message. *)
Definition printable (g : IpManager) : bool :=
  forallb interpolates (blockedIPs g ++ allowedIPs g).

(** [showStatus] of the command-line tool against a reachable server: the
    exit code ([process.exit(1)] when the request or the printing fails)
    and the state of the server afterwards. *)
Definition cli_showStatus
    (wire : Wire) (env : Env) (ADMIN_KEY : jsval) (via : Request)
    (st : ServerState) : nat * ServerState :=
  match makeRequest wire ADMIN_KEY via [] with
  | None => (1, st)
  | Some req =>
      let '(o, st') := app env GET_admin_ip_status req st in
      if response_ok o && shows o then (0, st') else (1, st')
  end.

(** [main] of the command-line tool against a reachable server: a command
    that changes the gate is followed by [showStatus] when it succeeded. *)
Definition cli_main
    (wire : Wire) (env : Env) (ADMIN_KEY : jsval) (via : Request)
    (command option : option jsstring) (st : ServerState)
    : nat * ServerState :=
  match cli_action command option with
  | CliExit1 => (1, st)
  | CliHelp => (0, st)
  | CliSend GET_admin_ip_status _ => cli_showStatus wire env ADMIN_KEY via st
  | CliSend r data =>
      match makeRequest wire ADMIN_KEY via data with
      | None => (1, st)
      | Some req =>
          let '(o, st') := app env r req st in
          if response_ok o then cli_showStatus wire env ADMIN_KEY via st'
          else (1, st')
      end
  end.

(** ** The test script ([test-transaction-validation.js]) *)

(** An element of [testCases]. *)
Record TestCase : Type := mkTestCase {
  tc_name : string;
  tc_data : list (string * jsval);
  expectedSuccess : bool;
  useInvalidKey : bool
}.

(** The array [testCases]; [now1], [now5] and [now6] are the digits of the
    three [Date.now()] and [random1] is
    [Math.random().toString(36).substr(2, 9).toUpperCase()]. *)
Definition testCases (now1 random1 now5 now6 : jsstring) : list TestCase :=
  [ {| tc_name := "Valid Transaction ID";
       tc_data :=
         [("transactionId", JString (js "TXN-" ++ now1 ++ js "-" ++ random1));
          ("customerName", JString (js "John Doe"));
          ("customerEmail", JString (js "john@example.com"));
          ("customerDiscord", JString (js "john#1234"))];
       expectedSuccess := true; useInvalidKey := false |};
    {| tc_name := "Transaction ID with spaces (should fail)";
       tc_data :=
         [("transactionId", JString (js "TXN 123456789"));
          ("customerName", JString (js "Jane Doe"));
          ("customerEmail", JString (js "jane@example.com"));
          ("customerDiscord", JString (js "jane#5678"))];
       expectedSuccess := false; useInvalidKey := false |};
    {| tc_name := "Duplicate Transaction ID (should fail)";
       tc_data :=
         [("transactionId", JString (js "TXN-DUPLICATE-TEST"));
          ("customerName", JString (js "Bob Smith"));
          ("customerEmail", JString (js "bob@example.com"));
          ("customerDiscord", JString (js "bob#9012"))];
       expectedSuccess := true; useInvalidKey := false |};
    {| tc_name := "Same Duplicate Transaction ID (should fail)";
       tc_data :=
         [("transactionId", JString (js "TXN-DUPLICATE-TEST"));
          ("customerName", JString (js "Alice Smith"));
          ("customerEmail", JString (js "alice@example.com"));
          ("customerDiscord", JString (js "alice#3456"))];
       expectedSuccess := false; useInvalidKey := false |};
    {| tc_name := "Missing required fields (should fail)";
       tc_data :=
         [("transactionId", JString (js "TXN-" ++ now5 ++ js "-MISSING"));
          ("customerName", JString (js "Charlie Brown"))];
       expectedSuccess := false; useInvalidKey := false |};
    {| tc_name := "Invalid API Key (should fail)";
       tc_data :=
         [("transactionId", JString (js "TXN-" ++ now6 ++ js "-INVALID"));
          ("customerName", JString (js "David Wilson"));
          ("customerEmail", JString (js "david@example.com"));
          ("customerDiscord", JString (js "david#7890"))];
       expectedSuccess := false; useInvalidKey := true |} ].

(** The request a test case produces at the server, if [fetch] sends one:
    the API key of the script or the invalid one as the wire delivers it,
    the data as the body; [via] as for [makeRequest]. *)
Definition test_request
    (wire : Wire) (API_KEY : jsval) (via : Request) (tc : TestCase)
    : option Request :=
  match wire (if useInvalidKey tc then js "invalid-key-test"
              else string_value API_KEY) with
  | Some key =>
      Some {| x_forwarded_for := x_forwarded_for via;
              x_real_ip := x_real_ip via;
              x_admin_key := None;
              x_api_key := Some key;
              connection_remoteAddress := connection_remoteAddress via;
              socket_remoteAddress := socket_remoteAddress via;
              req_ip := req_ip via;
              body := tc_data tc |}
  | None => None
  end.

(** The [success] property of a response body. *)
Definition result_success (b : ResponseBody) : bool :=
  match b with
  | ErrorBody _ | DeniedBody _ _ => false
  | _ => true
  end.

(** One round of the script's loop against a reachable server whose posts
    to the chat webhook end as [discord]: the count of passed tests and the
    state of the server afterwards. A [fetch] that throws is caught, and
    the case does not pass. *)
Definition test_step
    (wire : Wire) (env : Env) (API_KEY : jsval) (via : Request)
    (discord : FetchResult)
    (acc : nat * ServerState) (tc : TestCase) : nat * ServerState :=
  match test_request wire API_KEY via tc with
  | None => acc
  | Some req =>
      let '(o, st') := app env POST_webhook_checkout req acc.2 in
      let res := match o with
                 | Done res => res
                 | AwaitFetch _ _ resume => resume discord
                 end in
      let ok := (200 <=? status res)%nat && (status res <=? 299)%nat in
      let success := result_success (json res) in
      let passed := if expectedSuccess tc then ok && success
                    else negb ok || negb success in
      (if passed then S acc.1 else acc.1, st')
  end.

(** [testTransactionValidation]: [passedTests] and the server's state at
    the end. *)
Definition testTransactionValidation
    (wire : Wire) (env : Env) (API_KEY : jsval) (via : Request)
    (discord : FetchResult)
    (cases : list TestCase) (st : ServerState) : nat * ServerState :=
  foldl (test_step wire env API_KEY via discord) (0, st) cases.

(** * Properties *)

(** ** Sets *)

Section JSSetFacts.
Context {A : Type} `{EqDecision A}.
Implicit Types (x y : A) (s : JSSet.t A).

Lemma has_true x s : JSSet.has x s = true ↔ x ∈ s.
Proof. unfold JSSet.has. apply bool_decide_eq_true. Qed.

Lemma has_false x s : JSSet.has x s = false ↔ x ∉ s.
Proof. unfold JSSet.has. apply bool_decide_eq_false. Qed.

Lemma elem_of_add x y s : y ∈ JSSet.add x s ↔ y = x ∨ y ∈ s.
Proof.
  unfold JSSet.add. destruct (JSSet.has x s) eqn:Hx.
  - apply has_true in Hx. split; [auto | intros [-> | ?]; done].
  - rewrite elem_of_app, list_elem_of_singleton. tauto.
Qed.

Lemma elem_of_delete x y s : y ∈ JSSet.delete x s ↔ y ≠ x ∧ y ∈ s.
Proof. unfold JSSet.delete. by rewrite list_elem_of_filter. Qed.

Lemma add_mono x y s : y ∈ s → y ∈ JSSet.add x s.
Proof. intros. apply elem_of_add. by right. Qed.

Lemma add_elem x s : x ∈ JSSet.add x s.
Proof. apply elem_of_add. by left. Qed.

Lemma NoDup_add x s : NoDup s → NoDup (JSSet.add x s).
Proof.
  intros Hs. unfold JSSet.add. destruct (JSSet.has x s) eqn:Hx; [done |].
  apply has_false in Hx. apply NoDup_app. split_and!; [done | | apply NoDup_singleton].
  intros y Hy ->%list_elem_of_singleton. done.
Qed.

Lemma NoDup_delete x s : NoDup s → NoDup (JSSet.delete x s).
Proof. apply NoDup_filter. Qed.

Lemma size_zero s : (JSSet.size s =? 0)%nat = true ↔ s = [].
Proof.
  unfold JSSet.size. rewrite Nat.eqb_eq. apply length_zero_iff_nil.
Qed.
End JSSetFacts.

(** ** Strings *)

(** Reads a boolean combination of tests on code units as a proposition. *)
Ltac N_tests H :=
  rewrite ?orb_true_iff, ?andb_true_iff, ?N.leb_le, ?N.eqb_eq in H.

Lemma N_below_forallb (P : N → bool) (b : nat) :
  forallb P (map N.of_nat (seq 0 b)) = true →
  ∀ c, (c < N.of_nat b)%N → P c = true.
Proof.
  intros HP c Hc. rewrite forallb_forall in HP. apply HP.
  apply in_map_iff. exists (N.to_nat c). split; [lia |].
  apply in_seq. lia.
Qed.

(** The ranges of the regular expression denote the allowed characters. *)
Lemma in_class_charset c : in_class c = true ↔ c ∈ charset.
Proof.
  destruct (decide (c < 123)%N) as [Hlt | Hge].
  - pose proof (N_below_forallb
      (λ c, Bool.eqb (in_class c) (bool_decide (c ∈ charset))) 123) as Hall.
    specialize (Hall ltac:(vm_compute; reflexivity) c Hlt). simpl in Hall.
    apply Bool.eqb_prop in Hall. rewrite Hall. apply bool_decide_eq_true.
  - split.
    + unfold in_class. intros Hc. N_tests Hc. lia.
    + intros Hc.
      assert (Hb : Forall (λ d, (d < 123)%N) charset)
        by (eapply bool_decide_eq_true_1; vm_compute; reflexivity).
      rewrite Forall_forall in Hb. apply Hb in Hc. lia.
Qed.

Lemma in_class_not_charset c : in_class c = false ↔ c ∉ charset.
Proof. rewrite <- in_class_charset. by destruct (in_class c). Qed.

Lemma charset_not_space c : c ∈ charset → isStrWhiteSpaceChar c = false.
Proof.
  intros Hc%in_class_charset. unfold in_class in Hc. N_tests Hc.
  destruct (isStrWhiteSpaceChar c) eqn:Hw; [| done].
  unfold isStrWhiteSpaceChar in Hw. N_tests Hw. lia.
Qed.

Lemma class_plus_end_spec s :
  class_plus_end s = true ↔ s ≠ [] ∧ Forall (λ c, c ∈ charset) s.
Proof.
  induction s as [| c t IH]; simpl.
  - split; [done | intros [? _]; done].
  - rewrite andb_true_iff, in_class_charset, Forall_cons.
    destruct t as [| d t'].
    + split; [intros [? _]; split_and!; auto | intros (_ & ? & _); auto].
    + rewrite IH. split.
      * intros (? & _ & ?). auto.
      * intros (_ & ? & ?). auto.
Qed.

Lemma includes_space_spec s : includes_space s = true ↔ 0x20%N ∈ s.
Proof.
  unfold includes_space. rewrite existsb_exists. split.
  - intros (c & Hin & ->%N.eqb_eq). by apply list_elem_of_In.
  - intros Hin. exists 0x20%N. split; [by apply list_elem_of_In | done].
Qed.

Lemma trimStart_split s :
  ∃ pre, s = pre ++ trimStart s ∧ Forall (λ c, isStrWhiteSpaceChar c = true) pre.
Proof.
  induction s as [| c t (pre & Heq & Hpre)]; simpl.
  - by exists [].
  - destruct (isStrWhiteSpaceChar c) eqn:Hc.
    + exists (c :: pre). split; [simpl; congruence | by constructor].
    + by exists [].
Qed.

Lemma trimStart_head s c t :
  trimStart s = c :: t → isStrWhiteSpaceChar c = false.
Proof.
  induction s as [| d u IH]; simpl; [done |].
  destruct (isStrWhiteSpaceChar d) eqn:Hd; [done | congruence].
Qed.

Lemma trimStart_fixed c t :
  isStrWhiteSpaceChar c = false → trimStart (c :: t) = c :: t.
Proof. intros Hc. simpl. by rewrite Hc. Qed.

Lemma trimEnd_split s :
  ∃ post, s = trimEnd s ++ post
          ∧ Forall (λ c, isStrWhiteSpaceChar c = true) post.
Proof.
  destruct (trimStart_split (rev s)) as (pre & Heq & Hpre).
  exists (rev pre). split.
  - unfold trimEnd. rewrite <- rev_app_distr, <- Heq. by rewrite rev_involutive.
  - apply Forall_forall. intros c Hc. rewrite Forall_forall in Hpre.
    apply Hpre. apply list_elem_of_In. apply list_elem_of_In in Hc.
    by apply in_rev.
Qed.

(** [trim] removes a run of white space at each end, and what is left
    neither starts nor ends with white space. *)
Lemma trim_split s :
  ∃ pre post,
    s = pre ++ trim s ++ post
    ∧ Forall (λ c, isStrWhiteSpaceChar c = true) pre
    ∧ Forall (λ c, isStrWhiteSpaceChar c = true) post
    ∧ (∀ c t, trim s = c :: t → isStrWhiteSpaceChar c = false)
    ∧ (∀ t c, trim s = t ++ [c] → isStrWhiteSpaceChar c = false).
Proof.
  destruct (trimStart_split s) as (pre & Hpre_eq & Hpre).
  destruct (trimEnd_split (trimStart s)) as (post & Hpost_eq & Hpost).
  exists pre, post. unfold trim. split_and!; try done.
  - by rewrite <- Hpost_eq.
  - intros c t Hc. rewrite Hc in Hpost_eq. by eapply trimStart_head.
  - intros t c Hc. unfold trimEnd in Hc.
    apply (f_equal (@rev N)) in Hc. rewrite rev_involutive, rev_unit in Hc.
    by eapply trimStart_head.
Qed.

(** [trim] leaves a string of allowed characters as it is. *)
Lemma trim_charset s : Forall (λ c, c ∈ charset) s → trim s = s.
Proof.
  intros Hs. unfold trim, trimEnd.
  assert (Hstart : ∀ u, Forall (λ c, c ∈ charset) u → trimStart u = u).
  { intros [| c t] Hu; [done |]. apply trimStart_fixed, charset_not_space.
    by inversion Hu. }
  rewrite (Hstart s Hs), Hstart; [apply rev_involutive |].
  apply Forall_forall. intros c Hc. rewrite Forall_forall in Hs. apply Hs.
  apply list_elem_of_In. apply list_elem_of_In in Hc. by apply in_rev.
Qed.

(** ** The transaction-ID guard *)

Section Applicable.
Variables (ledger : JSSet.t jsstring) (raw : jsval).

Lemma applicable_Empty :
  bool_decide (applicable ledger raw Empty)
  = negb (truthy raw) || negb (bool_decide (typeof raw = "string")).
Proof.
  apply eq_true_iff_eq.
  rewrite bool_decide_eq_true, orb_true_iff, !negb_true_iff,
    bool_decide_eq_false.
  simpl. split.
  - intros [-> | ?]; auto.
  - intros [Hf | ?]; [| by right].
    destruct raw as [| | | | s |]; try (right; discriminate).
    left. simpl in Hf. apply negb_false_iff, bool_decide_eq_true in Hf.
    by subst.
Qed.

Lemma applicable_TooShort :
  bool_decide (applicable ledger raw TooShort)
  = (length (trim (string_value raw)) <? 8)%nat.
Proof.
  apply eq_true_iff_eq. rewrite bool_decide_eq_true, Nat.ltb_lt. done.
Qed.

Lemma applicable_TooLong :
  bool_decide (applicable ledger raw TooLong)
  = (100 <? length (trim (string_value raw)))%nat.
Proof.
  apply eq_true_iff_eq. rewrite bool_decide_eq_true, Nat.ltb_lt. done.
Qed.

Lemma applicable_ContainsWhitespace :
  bool_decide (applicable ledger raw ContainsWhitespace)
  = includes_space (trim (string_value raw)).
Proof.
  apply eq_true_iff_eq.
  rewrite bool_decide_eq_true, includes_space_spec. done.
Qed.

(** Past the length check the trimmed value is not empty, so the regular
    expression fails exactly when some character is not allowed. *)
Lemma applicable_InvalidCharset :
  (length (trim (string_value raw)) <? 8)%nat = false →
  bool_decide (applicable ledger raw InvalidCharset)
  = negb (regex_test (trim (string_value raw))).
Proof.
  intros Hlen%Nat.ltb_ge. apply eq_true_iff_eq.
  rewrite bool_decide_eq_true, negb_true_iff. unfold regex_test. simpl.
  set (t := trim (string_value raw)) in *. split.
  - intros (c & Hin & Hnot)%Exists_exists.
    destruct (class_plus_end t) eqn:Ht; [| done].
    apply class_plus_end_spec in Ht as [_ Hall].
    rewrite Forall_forall in Hall. exfalso. by apply Hnot, Hall.
  - intros Ht. destruct (decide (Forall (λ c, c ∈ charset) t)) as [Hall | Hn].
    + assert (class_plus_end t = true); [| congruence].
      apply class_plus_end_spec. split; [| done].
      intros Hnil. rewrite Hnil in Hlen. simpl in Hlen. lia.
    + by apply not_Forall_Exists in Hn; [| apply _].
Qed.

Lemma applicable_AlreadyUsed :
  bool_decide (applicable ledger raw AlreadyUsed)
  = JSSet.has (trim (string_value raw)) ledger.
Proof. done. Qed.
End Applicable.

(** The code and the specification's wording agree on every input. *)
Lemma validate_and_admit_spec ledger raw :
  validate_and_admit ledger raw = spec_validate_and_admit ledger raw.
Proof.
  unfold spec_validate_and_admit, validate_and_admit, validateTransactionId,
    rejection_order.
  cbn [List.find].
  rewrite applicable_Empty, applicable_TooShort, applicable_TooLong,
    applicable_ContainsWhitespace, applicable_AlreadyUsed.
  destruct (negb (truthy raw) || negb (bool_decide (typeof raw = "string")));
    [done |].
  destruct (length (trim (string_value raw)) <? 8)%nat eqn:Hshort; [done |].
  rewrite (applicable_InvalidCharset ledger raw Hshort).
  destruct (100 <? length (trim (string_value raw)))%nat; [done |].
  destruct (includes_space (trim (string_value raw))); [done |].
  destruct (negb (regex_test (trim (string_value raw)))); [done |].
  destruct (JSSet.has (trim (string_value raw)) ledger); done.
Qed.

Lemma trim_nil : trim [] = [].
Proof. done. Qed.

Lemma space_not_allowed : 0x20%N ∉ charset.
Proof. intros H%in_class_charset. vm_compute in H. done. Qed.

(** A string that trims to a well-formed identifier not yet in the ledger
    is admitted, and the identifier is inserted. *)
Lemma admit_fresh s ledger :
  well_formed (trim s) → trim s ∉ ledger →
  validate_and_admit ledger (JString s)
  = (AdmittedId (trim s), JSSet.add (trim s) ledger).
Proof.
  intros [[Hmin Hmax] Hall] Hfresh.
  unfold validate_and_admit, validateTransactionId. simpl.
  assert (Hs : s ≠ []) by (intros ->; rewrite trim_nil in Hmin; simpl in Hmin; lia).
  rewrite (bool_decide_eq_false_2 _ Hs). simpl.
  assert ((length (trim s) <? 8)%nat = false) as -> by (apply Nat.ltb_ge; lia).
  assert ((100 <? length (trim s))%nat = false) as -> by (apply Nat.ltb_ge; lia).
  assert (includes_space (trim s) = false) as ->.
  { apply not_true_iff_false. rewrite includes_space_spec. intros Hsp.
    rewrite Forall_forall in Hall. by apply space_not_allowed, Hall. }
  assert (regex_test (trim s) = true) as ->.
  { apply class_plus_end_spec. split; [| done].
    intros Hnil. rewrite Hnil in Hmin. simpl in Hmin. lia. }
  simpl. by apply has_false in Hfresh as ->.
Qed.

(** The outcome of an admission call: a rejection that leaves the ledger as
    it was, or the admission of a well-formed identifier that was not in the
    ledger and is inserted. *)
Lemma validate_and_admit_cases ledger raw :
  (∃ error, validate_and_admit ledger raw = (Rejected error, ledger))
  ∨ (∃ x, (x ∉ ledger) ∧ well_formed x
          ∧ validate_and_admit ledger raw = (AdmittedId x, JSSet.add x ledger)).
Proof.
  unfold validate_and_admit, validateTransactionId.
  destruct (negb (truthy raw) || negb (bool_decide (typeof raw = "string")));
    [left; eauto |].
  set (x := trim (string_value raw)).
  destruct (length x <? 8)%nat eqn:Hmin; [left; eauto |].
  destruct (100 <? length x)%nat eqn:Hmax; [left; eauto |].
  destruct (includes_space x); [left; eauto |].
  destruct (regex_test x) eqn:Hre; [| left; eauto]. simpl.
  destruct (JSSet.has x ledger) eqn:Hhas; [left; eauto |].
  right. exists x. apply has_false in Hhas.
  apply Nat.ltb_ge in Hmin, Hmax. apply class_plus_end_spec in Hre as [_ Hall].
  repeat split; auto.
Qed.

(** The ledger only grows. *)
Lemma validate_and_admit_mono ledger raw x :
  x ∈ ledger → x ∈ (validate_and_admit ledger raw).2.
Proof.
  intros Hx.
  destruct (validate_and_admit_cases ledger raw)
    as [(e & ->) | (y & _ & _ & ->)]; simpl; [done | by apply add_mono].
Qed.

Lemma admit_all_mono raws ledger x :
  x ∈ ledger → x ∈ admit_all ledger raws.
Proof.
  revert ledger. induction raws as [| raw raws IH]; intros ledger Hx; [done |].
  simpl. apply IH. by apply validate_and_admit_mono.
Qed.

(** An identifier in the ledger is not admitted. *)
Lemma used_not_admitted ledger raw x :
  x ∈ ledger → (validate_and_admit ledger raw).1 ≠ AdmittedId x.
Proof.
  intros Hx.
  destruct (validate_and_admit_cases ledger raw)
    as [(e & ->) | (y & Hy & _ & ->)]; simpl; [done |].
  intros [= ->]. done.
Qed.

(** A string that trims to a well-formed identifier of the ledger is
    rejected as already used. *)
Lemma admit_used s ledger :
  well_formed (trim s) → trim s ∈ ledger →
  validate_and_admit ledger (JString s)
  = (Rejected (error_message AlreadyUsed), ledger).
Proof.
  intros [[Hmin Hmax] Hall] Hused.
  unfold validate_and_admit, validateTransactionId. simpl.
  assert (Hs : s ≠ []) by (intros ->; rewrite trim_nil in Hmin; simpl in Hmin; lia).
  rewrite (bool_decide_eq_false_2 _ Hs). simpl.
  assert ((length (trim s) <? 8)%nat = false) as -> by (apply Nat.ltb_ge; lia).
  assert ((100 <? length (trim s))%nat = false) as -> by (apply Nat.ltb_ge; lia).
  assert (includes_space (trim s) = false) as ->.
  { apply not_true_iff_false. rewrite includes_space_spec. intros Hsp.
    rewrite Forall_forall in Hall. by apply space_not_allowed, Hall. }
  assert (regex_test (trim s) = true) as ->.
  { apply class_plus_end_spec. split; [| done].
    intros Hnil. rewrite Hnil in Hmin. simpl in Hmin. lia. }
  simpl. by apply has_true in Hused as ->.
Qed.

(** ** The ledger over the life of the process *)

(** What a request does to the ledger: nothing, or one admission call. *)
Lemma app_ledger env r req st :
  usedTransactionIds (app env r req st).2 = usedTransactionIds st
  ∨ ∃ raw, usedTransactionIds (app env r req st).2
           = (validate_and_admit (usedTransactionIds st) raw).2.
Proof.
  destruct r; simpl;
    unfold admin_ip_status, admin_block_ip, admin_allow_ip, admin_remove_ip,
      admin_set_mode, webhook, webhook_test, checkIPAccess, webhook_checkout,
      webhook_payment;
    repeat case_match; simpl; auto; right;
    match goal with
    | H : validate_and_admit _ ?raw = _ |- _ => exists raw; by rewrite H
    end.
Qed.

Lemma turn_ledger_mono env l t x :
  x ∈ usedTransactionIds (server l) →
  x ∈ usedTransactionIds (server (turn env l t)).
Proof.
  intros Hx. destruct t as [r req | conn response]; simpl.
  - pose proof (app_ledger env r req (server l)) as Happ.
    destruct (app env r req (server l)) as [o st]. simpl in *.
    destruct Happ as [-> | [raw ->]]; [done |].
    by apply validate_and_admit_mono.
  - repeat case_match; done.
Qed.

Lemma run_ledger_mono env ts l x :
  x ∈ usedTransactionIds (server l) →
  x ∈ usedTransactionIds (server (run env ts l)).
Proof.
  revert l. induction ts as [| t ts IH]; intros l Hx; [done |].
  simpl. apply IH. by apply turn_ledger_mono.
Qed.

(** C1. A string that trims to a well-formed identifier not yet in the
    ledger is admitted by the first admission call; after any admission
    calls in between, the same string is rejected as already used; and
    whatever requests the process serves afterwards, no admission call is
    ever answered with that identifier again. *)
Theorem admitted_exactly_once (s : jsstring) (ledger : JSSet.t jsstring) :
  well_formed (trim s) →
  trim s ∉ ledger →
  let first := validate_and_admit ledger (JString s) in
  first.1 = AdmittedId (trim s)
  ∧ (∀ others : list jsval,
       (validate_and_admit (admit_all first.2 others) (JString s)).1
       = Rejected (error_message AlreadyUsed))
  ∧ (∀ (env : Env) (l : Loop) (ts : list Turn) (raw : jsval),
       usedTransactionIds (server l) = first.2 →
       (validate_and_admit
          (usedTransactionIds (server (run env ts l))) raw).1
       ≠ AdmittedId (trim s)).
Proof.
  intros Hwf Hfresh. simpl. rewrite (admit_fresh s ledger Hwf Hfresh). simpl.
  split_and!.
  - done.
  - intros others. rewrite admit_used; [done | done |].
    apply admit_all_mono, add_elem.
  - intros env l ts raw Hl. apply used_not_admitted, run_ledger_mono.
    rewrite Hl. apply add_elem.
Qed.

(** An instance of C1: the identifier TXN-12345678, a fresh process, and
    another identifier admitted in between. *)
Lemma admitted_exactly_once_witness :
  (validate_and_admit [] (JString (js "TXN-12345678"))).1
  = AdmittedId (js "TXN-12345678")
  ∧ (validate_and_admit
       (admit_all [js "TXN-12345678"] [JString (js "TXN-87654321")])
       (JString (js "TXN-12345678"))).1
    = Rejected "Transaction ID has already been used".
Proof.
  assert (Hwf : well_formed (trim (js "TXN-12345678"))).
  { split; [vm_compute; lia |].
    eapply bool_decide_eq_true_1. vm_compute. reflexivity. }
  assert (Hfresh : trim (js "TXN-12345678") ∉ ([] : list jsstring))
    by apply not_elem_of_nil.
  destruct (admitted_exactly_once (js "TXN-12345678") [] Hwf Hfresh)
    as (Hfirst & Hsecond & _).
  split; [exact Hfirst | exact (Hsecond [JString (js "TXN-87654321")])].
Defined.

(** C2. On every input the admission call does what the specification's
    ordered list of rejections says, computed on the trimmed input; a
    rejection leaves the ledger as it was; and identifiers of 8 and of 100
    allowed characters are admitted when not yet used, while those of 7 and
    of 101 are too short and too long. *)
Theorem validate_and_admit_order (ledger : JSSet.t jsstring) (raw : jsval) :
  validate_and_admit ledger raw = spec_validate_and_admit ledger raw
  ∧ (∀ error, (validate_and_admit ledger raw).1 = Rejected error →
              (validate_and_admit ledger raw).2 = ledger)
  ∧ (∀ x, Forall (λ c, c ∈ charset) x → x ∉ ledger →
          length x = 8 ∨ length x = 100 →
          validate_and_admit ledger (JString x)
          = (AdmittedId x, JSSet.add x ledger))
  ∧ (∀ x, Forall (λ c, c ∈ charset) x → length x = 7 →
          validate_and_admit ledger (JString x)
          = (Rejected (error_message TooShort), ledger))
  ∧ (∀ x, Forall (λ c, c ∈ charset) x → length x = 101 →
          validate_and_admit ledger (JString x)
          = (Rejected (error_message TooLong), ledger)).
Proof.
  split_and!.
  - apply validate_and_admit_spec.
  - intros error Hrej.
    destruct (validate_and_admit_cases ledger raw)
      as [(e & Heq) | (y & _ & _ & Heq)]; rewrite Heq in *; done.
  - intros x Hall Hfresh Hlen. pose proof (trim_charset x Hall) as Htrim.
    rewrite <- Htrim at 2 3. apply admit_fresh; rewrite Htrim; [| done].
    split; [lia | done].
  - intros x Hall Hlen. pose proof (trim_charset x Hall) as Htrim.
    unfold validate_and_admit, validateTransactionId. simpl.
    destruct x as [| c x]; [done |]. simpl bool_decide. cbn [negb orb].
    rewrite Htrim, Hlen. done.
  - intros x Hall Hlen. pose proof (trim_charset x Hall) as Htrim.
    unfold validate_and_admit, validateTransactionId. simpl.
    destruct x as [| c x]; [done |]. simpl bool_decide. cbn [negb orb].
    rewrite Htrim, Hlen. done.
Qed.

(** An instance of C2 at the four boundary lengths. *)
Lemma validate_and_admit_order_witness :
  validate_and_admit [] (JString (js "AZaz09_-"))
  = (AdmittedId (js "AZaz09_-"), [js "AZaz09_-"])
  ∧ validate_and_admit [] (JString (js "AZaz09_"))
    = (Rejected "Transaction ID must be at least 8 characters long", [])
  ∧ validate_and_admit [] (JString (repeat 0x41%N 100))
    = (AdmittedId (repeat 0x41%N 100), [repeat 0x41%N 100])
  ∧ validate_and_admit [] (JString (repeat 0x41%N 101))
    = (Rejected "Transaction ID must be less than 100 characters", []).
Proof.
  destruct (validate_and_admit_order [] JNull) as (_ & _ & Hin & H7 & H101).
  assert (Hall : ∀ x, bool_decide (Forall (λ c, c ∈ charset) x) = true →
                      Forall (λ c, c ∈ charset) x)
    by (intros x; apply bool_decide_eq_true_1).
  split_and!.
  - apply (Hin (js "AZaz09_-"));
      [apply Hall; vm_compute; reflexivity | apply not_elem_of_nil | by left].
  - apply (H7 (js "AZaz09_")); [apply Hall; vm_compute; reflexivity | done].
  - apply (Hin (repeat 0x41%N 100));
      [apply Hall; vm_compute; reflexivity | apply not_elem_of_nil | by right].
  - apply (H101 (repeat 0x41%N 101));
      [apply Hall; vm_compute; reflexivity | done].
Defined.

(** ** The gate *)

Lemma mode_whitelist g : mode (getStatus g) = "whitelist" ↔ whitelistMode g = true.
Proof. simpl. by destruct (whitelistMode g). Qed.

Lemma mode_blacklist g : mode (getStatus g) = "blacklist" ↔ whitelistMode g = false.
Proof. simpl. by destruct (whitelistMode g). Qed.

Lemma isIPAllowed_whitelist addr g :
  whitelistMode g = true →
  isIPAllowed addr g = true ↔ addr ∈ allowedIPs g ∨ allowedIPs g = [].
Proof.
  intros Hm. unfold isIPAllowed. rewrite Hm.
  by rewrite orb_true_iff, has_true, size_zero.
Qed.

Lemma isIPAllowed_blacklist addr g :
  whitelistMode g = false →
  isIPAllowed addr g = true ↔ addr ∉ blockedIPs g.
Proof.
  intros Hm. unfold isIPAllowed. rewrite Hm.
  by rewrite negb_true_iff, has_false.
Qed.

(** C3. In whitelist mode an address is allowed exactly when it is in the
    allowed set or that set is empty; in blacklist mode exactly when it is
    not in the blocked set. So with an empty allowed set whitelist mode
    lets every address through, and once one address has been allowed every
    other address is denied. *)
Theorem isIPAllowed_by_mode (addr : jsval) (g : IpManager) :
  (mode (getStatus g) = "whitelist" →
     (isIPAllowed addr g = true ↔ addr ∈ allowedIPs g ∨ allowedIPs g = []))
  ∧ (mode (getStatus g) = "blacklist" →
     (isIPAllowed addr g = true ↔ addr ∉ blockedIPs g))
  ∧ (mode (getStatus g) = "whitelist" → allowedIPs g = [] →
     isIPAllowed addr g = true
     ∧ isIPAllowed addr (allowIP addr g) = true
     ∧ ∀ other, other ≠ addr → isIPAllowed other (allowIP addr g) = false).
Proof.
  split_and!.
  - intros Hm%mode_whitelist. by apply isIPAllowed_whitelist.
  - intros Hm%mode_blacklist. by apply isIPAllowed_blacklist.
  - intros Hm%mode_whitelist Hempty. split_and!.
    + apply isIPAllowed_whitelist; auto.
    + apply isIPAllowed_whitelist; [done |]. left. simpl. apply add_elem.
    + intros other Hne. apply not_true_iff_false.
      rewrite isIPAllowed_whitelist by done. simpl. rewrite Hempty.
      intros [Hin | Hnil]; [| done].
      apply elem_of_add in Hin as [? | Hin]; [done |]. by apply elem_of_nil in Hin.
Qed.

(** An instance of C3: scenario B of the specification. *)
Lemma isIPAllowed_by_mode_witness :
  let g := setMode (JString (js "whitelist")) ipManager_init in
  isIPAllowed (JString (js "1.2.3.4")) g = true
  ∧ isIPAllowed (JString (js "5.6.7.8"))
      (allowIP (JString (js "5.6.7.8")) g) = true
  ∧ isIPAllowed (JString (js "1.2.3.4"))
      (allowIP (JString (js "5.6.7.8")) g) = false.
Proof.
  intros g.
  destruct (isIPAllowed_by_mode (JString (js "1.2.3.4")) g) as (_ & _ & H1).
  destruct (isIPAllowed_by_mode (JString (js "5.6.7.8")) g) as (_ & _ & H5).
  split_and!.
  - by apply H1.
  - by apply H5.
  - apply H5; [done | done |]. vm_compute. congruence.
Defined.

Lemma gate_op_disjoint g op : disjoint_sets g → disjoint_sets (gate_op g op).
Proof.
  intros Hg addr. specialize (Hg addr).
  destruct op as [a | a | a | m]; simpl;
    rewrite ?elem_of_add, ?elem_of_delete; tauto.
Qed.

Lemma gate_ops_disjoint ops g : disjoint_sets g → disjoint_sets (gate_ops ops g).
Proof.
  revert g. induction ops as [| op ops IH]; intros g Hg; [done |].
  simpl. apply IH. by apply gate_op_disjoint.
Qed.

Lemma init_disjoint : disjoint_sets ipManager_init.
Proof. intros addr [Hb _]. by apply elem_of_nil in Hb. Qed.

(** What a request does to the gate: nothing, or, at an admin endpoint and
    with the configured key, one operation. *)
Lemma app_gate env r req st :
  ipManager (app env r req st).2 = ipManager st
  ∨ (is_admin r = true ∧ authorized env req
     ∧ ∃ op, ipManager (app env r req st).2 = gate_op (ipManager st) op).
Proof.
  unfold authorized.
  destruct r; simpl;
    unfold admin_ip_status, admin_block_ip, admin_allow_ip, admin_remove_ip,
      admin_set_mode, webhook, webhook_test, checkIPAccess, webhook_checkout,
      webhook_payment, strict_eq;
    repeat case_match; simpl; auto; right;
    (split_and!; [done | by eapply bool_decide_eq_true_1, negb_false_iff |]);
    first [ by eexists (Block _) | by eexists (Allow _)
          | by eexists (Remove _) | by eexists (SetMode _) ].
Qed.

Lemma run_disjoint env ts l :
  disjoint_sets (ipManager (server l)) →
  disjoint_sets (ipManager (server (run env ts l))).
Proof.
  revert l. induction ts as [| t ts IH]; intros l Hl; [done |].
  simpl. apply IH. destruct t as [r req | conn response]; simpl.
  - pose proof (app_gate env r req (server l)) as Happ.
    destruct (app env r req (server l)) as [o st]. simpl in *.
    destruct Happ as [-> | (_ & _ & op & ->)]; [done |].
    by apply gate_op_disjoint.
  - repeat case_match; done.
Qed.

(** C4. No address is ever in both sets: whatever sequence of block, allow,
    remove and set-mode operations is applied to the initial gate, and
    whatever requests the process serves, the two sets are disjoint. Blocking
    evicts from the allowed set and allowing from the blocked set; after
    allow(A) then block(A), A is in the blocked set only and is denied in
    blacklist mode. *)
Theorem blocked_allowed_disjoint (ops : list GateOp) :
  disjoint_sets (gate_ops ops ipManager_init)
  ∧ (∀ env ts, disjoint_sets (ipManager (server (run env ts loop_init))))
  ∧ (∀ g A, (A ∉ allowedIPs (blockIP A g)) ∧ (A ∉ blockedIPs (allowIP A g)))
  ∧ (∀ g A,
       let g' := blockIP A (allowIP A g) in
       A ∈ blockedIPs g' ∧ (A ∉ allowedIPs g')
       ∧ (mode (getStatus g') = "blacklist" → isIPAllowed A g' = false)).
Proof.
  split_and!.
  - apply gate_ops_disjoint, init_disjoint.
  - intros env ts. apply run_disjoint, init_disjoint.
  - intros g A. simpl. rewrite !elem_of_delete. tauto.
  - intros g A. simpl. split_and!.
    + apply add_elem.
    + rewrite elem_of_delete. tauto.
    + intros Hm%(mode_blacklist (blockIP A (allowIP A g))).
      apply not_true_iff_false. rewrite isIPAllowed_blacklist by done.
      intros Hn. apply Hn. simpl. apply add_elem.
Qed.

(** An instance of C4 on the initial gate. *)
Lemma blocked_allowed_disjoint_witness :
  let A := JString (js "9.9.9.9") in
  let g' := blockIP A (allowIP A ipManager_init) in
  blockedIPs g' = [A] ∧ allowedIPs g' = [] ∧ isIPAllowed A g' = false.
Proof.
  intros A g'.
  destruct (blocked_allowed_disjoint [Allow A; Block A]) as (_ & _ & _ & H).
  destruct (H ipManager_init A) as (_ & _ & Hdenied).
  split_and!; [reflexivity | reflexivity | by apply Hdenied].
Defined.

(** C10. In whitelist mode the decision does not depend on the blocked set:
    replacing the blocked set by any other leaves it as it is. In particular,
    after block(A) and the switch to whitelist mode, if the allowed set is
    empty then A is allowed although it is still in the blocked set. *)
Theorem whitelist_ignores_blocked (A : jsval) (g : IpManager) :
  (mode (getStatus g) = "whitelist" →
   ∀ blocked,
     isIPAllowed A {| blockedIPs := blocked; allowedIPs := allowedIPs g;
                      whitelistMode := whitelistMode g |}
     = isIPAllowed A g)
  ∧ (let g' := setMode (JString (js "whitelist")) (blockIP A g) in
     allowedIPs g' = [] →
     mode (getStatus g') = "whitelist"
     ∧ isIPAllowed A g' = true ∧ A ∈ blockedIPs g').
Proof.
  split.
  - intros Hm%mode_whitelist blocked. unfold isIPAllowed. simpl. by rewrite Hm.
  - simpl. intros Hempty. split_and!.
    + done.
    + unfold isIPAllowed. simpl. rewrite Hempty. apply orb_true_r.
    + apply add_elem.
Qed.

(** An instance of C10 on the initial gate. *)
Lemma whitelist_ignores_blocked_witness :
  let A := JString (js "9.9.9.9") in
  let g' := setMode (JString (js "whitelist")) (blockIP A ipManager_init) in
  isIPAllowed A g' = true ∧ blockedIPs g' = [A].
Proof.
  intros A g'.
  destruct (whitelist_ignores_blocked A ipManager_init) as [_ H].
  destruct (H eq_refl) as (_ & Hallowed & _).
  split; [exact Hallowed | reflexivity].
Defined.

(** ** The client address *)

Lemma js_or_of_option o v :
  js_or (of_option o) v = if resolves o then of_option o else v.
Proof. by destruct o as [[| c s] |]. Qed.

(** C8. The client address is the first that resolves of: the
    forwarded-for header, the real-IP header, the transport-level peer
    address; and the sentinel Unknown when none does. *)
Theorem clientIP_order (req : Request) :
  clientIP req = JString (spec_resolve_client_address req)
  ∧ (resolves (x_forwarded_for req) = true →
     clientIP req = of_option (x_forwarded_for req))
  ∧ (resolves (x_forwarded_for req) = false →
     resolves (x_real_ip req) = true →
     clientIP req = of_option (x_real_ip req))
  ∧ (resolves (x_forwarded_for req) = false →
     resolves (x_real_ip req) = false →
     resolves (peer_address req) = true →
     clientIP req = of_option (peer_address req))
  ∧ (resolves (x_forwarded_for req) = false →
     resolves (x_real_ip req) = false →
     resolves (peer_address req) = false →
     clientIP req = JString (js "Unknown")).
Proof.
  unfold clientIP, spec_resolve_client_address, peer_address.
  rewrite !js_or_of_option.
  destruct (x_forwarded_for req) as [[| c1 s1] |],
           (x_real_ip req) as [[| c2 s2] |],
           (connection_remoteAddress req) as [[| c3 s3] |],
           (socket_remoteAddress req) as [[| c4 s4] |],
           (req_ip req) as [[| c5 s5] |];
    simpl; split_and!; done.
Qed.

(** An instance of C8: no forwarded-for header, a real-IP header and a
    socket address. *)
Lemma clientIP_order_witness :
  clientIP {| x_forwarded_for := None; x_real_ip := Some (js "10.0.0.7");
              x_admin_key := None; x_api_key := None;
              connection_remoteAddress := Some (js "127.0.0.1");
              socket_remoteAddress := Some (js "127.0.0.1");
              req_ip := Some (js "127.0.0.1"); body := [] |}
  = JString (js "10.0.0.7").
Proof.
  set (req := {| x_forwarded_for := None; x_real_ip := Some (js "10.0.0.7");
              x_admin_key := None; x_api_key := None;
              connection_remoteAddress := Some (js "127.0.0.1");
              socket_remoteAddress := Some (js "127.0.0.1");
              req_ip := Some (js "127.0.0.1"); body := [] |}).
  destruct (clientIP_order req) as (_ & _ & Hreal & _).
  apply Hreal; reflexivity.
Defined.

(** ** The admin endpoints *)

Lemma authorized_strict_eq env req :
  strict_eq (of_option (x_admin_key req)) (expectedAdminKey env) = true
  ↔ authorized env req.
Proof. unfold strict_eq, authorized. apply bool_decide_eq_true. Qed.

Lemma is_mode_literal_spec m :
  is_mode_literal m = true
  ↔ m = JString (js "whitelist") ∨ m = JString (js "blacklist").
Proof.
  unfold is_mode_literal. rewrite bool_decide_eq_true, !elem_of_cons.
  split; [intros [? | [? | ?%elem_of_nil]]; tauto | tauto].
Qed.

(** Every admin endpoint answers a request without the configured key with
    the authorization error and leaves the state as it was. *)
Lemma admin_unauthorized env r req st :
  is_admin r = true → ¬ authorized env req →
  app env r req st = (respond 401 (ErrorBody "Invalid admin key"), st).
Proof.
  intros Hr Hn. rewrite <- authorized_strict_eq in Hn.
  apply not_true_is_false in Hn.
  destruct r; try discriminate Hr; simpl;
    unfold admin_ip_status, admin_block_ip, admin_allow_ip, admin_remove_ip,
      admin_set_mode; by rewrite Hn.
Qed.

(** C7. The set-mode endpoint, given the configured key: with the literal
    whitelist or blacklist it makes that the gate's mode, leaves the two
    sets as they were and answers with the new status; with anything else it
    answers with the invalid-mode error and leaves the state as it was.
    Whoever asks, the mode only ever changes to a literal that was given. *)
Theorem set_mode_endpoint (env : Env) (req : Request) (st : ServerState) :
  let given := prop "mode" (body req) in
  let result := app env POST_admin_set_mode req st in
  (authorized env req →
   given = JString (js "whitelist") ∨ given = JString (js "blacklist") →
   JString (js (mode (getStatus (ipManager result.2)))) = given
   ∧ blockedIPs (ipManager result.2) = blockedIPs (ipManager st)
   ∧ allowedIPs (ipManager result.2) = allowedIPs (ipManager st)
   ∧ result.1
     = respond 200
         (AdminBody [Lit "IP filtering mode set to "; Interp given]
                    (getStatus (ipManager result.2))))
  ∧ (authorized env req →
     given ≠ JString (js "whitelist") → given ≠ JString (js "blacklist") →
     result = (respond 400 (ErrorBody mode_error), st))
  ∧ (mode (getStatus (ipManager result.2)) ≠ mode (getStatus (ipManager st)) →
     JString (js (mode (getStatus (ipManager result.2)))) = given).
Proof.
  simpl. unfold admin_set_mode.
  destruct (strict_eq (of_option (x_admin_key req)) (expectedAdminKey env))
    eqn:Hauth; simpl.
  - destruct (is_mode_literal (prop "mode" (body req))) eqn:Hlit.
    + apply is_mode_literal_spec in Hlit as Hm.
      assert (truthy (prop "mode" (body req)) = true) as ->
        by (destruct Hm as [-> | ->]; reflexivity).
      simpl. split_and!.
      * intros _ _. destruct Hm as [-> | ->]; done.
      * intros _ ? ?. tauto.
      * intros _. destruct Hm as [-> | ->]; done.
    + rewrite orb_true_r. simpl. split_and!.
      * intros _ Hm%is_mode_literal_spec. congruence.
      * done.
      * done.
  - apply not_true_iff_false in Hauth. rewrite authorized_strict_eq in Hauth.
    split_and!; done.
Qed.

(** An instance of C7: the configured key, first with the literal
    whitelist, then with another word. *)
Lemma set_mode_endpoint_witness :
  let env := {| ADMIN_KEY := Some (js "k3y"); API_KEY := None;
                DISCORD_WEBHOOK_URL := None |} in
  let req m := {| x_forwarded_for := None; x_real_ip := None;
                  x_admin_key := Some (js "k3y"); x_api_key := None;
                  connection_remoteAddress := None;
                  socket_remoteAddress := None; req_ip := None;
                  body := [("mode", JString (js m))] |} in
  JString (js (mode (getStatus (ipManager
     (app env POST_admin_set_mode (req "whitelist") server_init).2))))
  = JString (js "whitelist")
  ∧ app env POST_admin_set_mode (req "greylist") server_init
    = (respond 400 (ErrorBody mode_error), server_init).
Proof.
  intros env req.
  destruct (set_mode_endpoint env (req "whitelist") server_init)
    as (Hset & _ & _).
  destruct (set_mode_endpoint env (req "greylist") server_init)
    as (_ & Hrej & _).
  split.
  - destruct (Hset eq_refl (or_introl eq_refl)) as (Hmode & _). exact Hmode.
  - apply Hrej; [reflexivity | vm_compute; congruence | vm_compute; congruence].
Defined.

(** C6, as the code has it. Every admin endpoint first compares the
    presented key with the configured one: without it, the answer is the
    authorization error and the state is as it was. With it, the status
    endpoint answers with the status alone. A block, allow or remove request
    that carries an address, and a set-mode request that carries one of the
    two literals, runs the operation on the gate and, the value being one
    that can be written into a message (as every string and number is),
    answers with the confirmation message of the endpoint and the status of
    the gate after the operation. A block, allow or remove request without
    an address is answered with the missing-address error, a set-mode
    request with another mode with the invalid-mode error, and neither
    changes anything. *)
Theorem admin_endpoints
    (env : Env) (r : Route) (req : Request) (st : ServerState) :
  is_admin r = true →
  (¬ authorized env req →
   app env r req st = (respond 401 (ErrorBody "Invalid admin key"), st))
  ∧ (authorized env req →
     match r, admin_op r req with
     | GET_admin_ip_status, _ =>
         app env r req st
         = (respond 200 (StatusBody (getStatus (ipManager st))), st)
     | _, Some op =>
         interpolates (op_value op) = true →
         app env r req st
         = (respond 200
              (AdminBody (admin_message r req)
                         (getStatus (gate_op (ipManager st) op))),
            with_gate st (gate_op (ipManager st) op))
     | _, None =>
         app env r req st = (respond 400 (ErrorBody (admin_error r)), st)
     end).
Proof.
  intros Hr. split; [by apply admin_unauthorized |].
  intros Hauth%authorized_strict_eq.
  destruct r; try discriminate Hr; simpl;
    unfold admin_ip_status, admin_block_ip, admin_allow_ip, admin_remove_ip,
      admin_set_mode, logs; rewrite Hauth; simpl; [done | | | |].
  1-3: destruct (truthy (prop "ip" (body req))); simpl; [| done];
       by intros ->.
  destruct (is_mode_literal (prop "mode" (body req))) eqn:Hlit.
  - apply is_mode_literal_spec in Hlit as Hm.
    rewrite (bool_decide_eq_true_2 _ Hm).
    assert (truthy (prop "mode" (body req)) = true) as ->
      by (destruct Hm as [-> | ->]; reflexivity).
    done.
  - rewrite orb_true_r.
    rewrite bool_decide_eq_false_2; [done |].
    intros Hm%is_mode_literal_spec. congruence.
Qed.

(** An instance of C6: a block request with and without the configured
    key. *)
Lemma admin_endpoints_witness :
  let env := {| ADMIN_KEY := Some (js "k3y"); API_KEY := None;
                DISCORD_WEBHOOK_URL := None |} in
  let req key := {| x_forwarded_for := None; x_real_ip := None;
                    x_admin_key := key; x_api_key := None;
                    connection_remoteAddress := None;
                    socket_remoteAddress := None; req_ip := None;
                    body := [("ip", JString (js "9.9.9.9"))] |} in
  app env POST_admin_block_ip (req (Some (js "wrong"))) server_init
  = (respond 401 (ErrorBody "Invalid admin key"), server_init)
  ∧ app env POST_admin_block_ip (req (Some (js "k3y"))) server_init
    = (respond 200
         (AdminBody [Lit "IP "; Interp (JString (js "9.9.9.9"));
                     Lit " blocked successfully"]
            {| mode := "blacklist"; blockedCount := 1; allowedCount := 0;
               status_blockedIPs := [JString (js "9.9.9.9")];
               status_allowedIPs := [] |}),
       with_gate server_init
         (blockIP (JString (js "9.9.9.9")) ipManager_init)).
Proof.
  intros env req. split.
  - apply (admin_endpoints env POST_admin_block_ip); [reflexivity |].
    vm_compute. congruence.
  - destruct (admin_endpoints env POST_admin_block_ip (req (Some (js "k3y")))
                server_init eq_refl) as [_ Hok].
    exact (Hok eq_refl eq_refl).
Defined.

(** C6 as the specification states it fails: an authorized block request
    without an address is answered with an error, not with a status and a
    message, and the authorized status request is answered without a
    message. *)
Lemma admin_authorized_not_delegated :
  let env := {| ADMIN_KEY := Some (js "k3y"); API_KEY := None;
                DISCORD_WEBHOOK_URL := None |} in
  let req := {| x_forwarded_for := None; x_real_ip := None;
                x_admin_key := Some (js "k3y"); x_api_key := None;
                connection_remoteAddress := None;
                socket_remoteAddress := None; req_ip := None;
                body := [] |} in
  authorized env req
  ∧ app env POST_admin_block_ip req server_init
    = (respond 400 (ErrorBody "IP address required"), server_init)
  ∧ app env GET_admin_ip_status req server_init
    = (respond 200 (StatusBody (getStatus ipManager_init)), server_init)
  ∧ ¬ (∀ r, is_admin r = true →
            ∃ message status,
              (app env r req server_init).1
              = respond 200 (AdminBody message status)).
Proof.
  intros env req. split_and!; [reflexivity | reflexivity | reflexivity |].
  intros H. destruct (H POST_admin_block_ip eq_refl) as (m & s & Heq).
  vm_compute in Heq. discriminate Heq.
Qed.

(** ** The gate in front of the checkout and payment endpoints *)

Lemma api_key_strict_eq env req :
  strict_eq (of_option (x_api_key req)) (expectedApiKey env) = true
  ↔ of_option (x_api_key req) = expectedApiKey env.
Proof. unfold strict_eq. apply bool_decide_eq_true. Qed.

(** A checkout or payment handler posts to the chat webhook only with the
    API key and after it has admitted the transaction identifier. *)
Lemma handler_dispatches env req st (payment : bool) :
  let handler := if payment then webhook_payment env else webhook_checkout env in
  dispatches (handler req st).1 = true →
  of_option (x_api_key req) = expectedApiKey env
  ∧ ∃ x, validate_and_admit (usedTransactionIds st)
           (prop "transactionId" (body req))
         = (AdmittedId x, usedTransactionIds (handler req st).2).
Proof.
  destruct payment; simpl; unfold webhook_payment, webhook_checkout;
    destruct (strict_eq (of_option (x_api_key req)) (expectedApiKey env))
      eqn:Hkey; simpl; try done;
    apply api_key_strict_eq in Hkey;
    repeat case_match; simpl; try done; intros _; eauto.
Qed.

(** X22. A request to the checkout or the payment endpoint first passes
    the gate. When the gate denies its address the answer is 403 with the
    fixed error and the address, whatever key and body the request
    carries; the ledger is as it was and nothing is posted. When the gate
    allows the address the request goes on to the handler: the API key is
    compared first, and a post to the chat webhook is only made with the
    key and after the admission of the transaction identifier. *)
Theorem gate_before_checkout_and_payment
    (env : Env) (r : Route) (req : Request) (st : ServerState) :
  r = POST_webhook_checkout ∨ r = POST_webhook_payment →
  let handler :=
    match r with
    | POST_webhook_payment => webhook_payment env
    | _ => webhook_checkout env
    end in
  let allowed := isIPAllowed (clientIP req) (ipManager st) in
  (allowed = false → app env r req st = (denied (clientIP req), st))
  ∧ (allowed = true → app env r req st = handler req st)
  ∧ (allowed = true → of_option (x_api_key req) ≠ expectedApiKey env →
     app env r req st = (respond 401 (ErrorBody "Invalid API key"), st))
  ∧ (dispatches (app env r req st).1 = true →
     allowed = true
     ∧ of_option (x_api_key req) = expectedApiKey env
     ∧ ∃ x, validate_and_admit (usedTransactionIds st)
              (prop "transactionId" (body req))
            = (AdmittedId x, usedTransactionIds (app env r req st).2)).
Proof.
  intros Hr. simpl.
  assert (Happ : app env r req st
                 = checkIPAccess
                     match r with
                     | POST_webhook_payment => webhook_payment env
                     | _ => webhook_checkout env
                     end req st)
    by (destruct Hr as [-> | ->]; reflexivity).
  rewrite Happ. unfold checkIPAccess, denied, respond.
  destruct (isIPAllowed (clientIP req) (ipManager st)) eqn:Hallowed; simpl.
  - split_and!; try done.
    + intros _ Hkey. rewrite <- api_key_strict_eq in Hkey.
      apply not_true_is_false in Hkey.
      destruct Hr as [-> | ->]; unfold webhook_checkout, webhook_payment;
        by rewrite Hkey.
    + intros Hd. split; [done |].
      destruct Hr as [-> | ->].
      * by apply (handler_dispatches env req st false).
      * by apply (handler_dispatches env req st true).
  - split_and!; done.
Qed.

(** An instance of X22: a checkout request from a blocked address, with
    the API key and a well-formed body. *)
Lemma gate_before_checkout_and_payment_witness :
  let env := {| ADMIN_KEY := None; API_KEY := Some (js "k3y");
                DISCORD_WEBHOOK_URL := None |} in
  let req := {| x_forwarded_for := Some (js "9.9.9.9"); x_real_ip := None;
                x_admin_key := None; x_api_key := Some (js "k3y");
                connection_remoteAddress := Some (js "127.0.0.1");
                socket_remoteAddress := Some (js "127.0.0.1");
                req_ip := Some (js "127.0.0.1");
                body := [("transactionId", JString (js "TXN-12345678"));
                         ("customerName", JString (js "John"));
                         ("customerEmail", JString (js "john@example.com"))] |} in
  let st := with_gate server_init
              (blockIP (JString (js "9.9.9.9")) ipManager_init) in
  app env POST_webhook_checkout req st
  = (respond 403 (DeniedBody "Access denied from this IP address"
                             (JString (js "9.9.9.9"))), st).
Proof.
  intros env req st.
  destruct (gate_before_checkout_and_payment env POST_webhook_checkout req st
              (or_introl eq_refl)) as (Hdenied & _).
  exact (Hdenied eq_refl).
Defined.

(** C5. The code at a request the gate denies: the generic webhook
    endpoint is registered without [checkIPAccess], so a request to it from
    a blocked address is not answered with 403; its body is posted to the
    chat webhook. *)
Theorem generic_webhook_not_gated :
  let env := {| ADMIN_KEY := Some (js "k3y"); API_KEY := None;
                DISCORD_WEBHOOK_URL := None |} in
  let req := {| x_forwarded_for := Some (js "9.9.9.9"); x_real_ip := None;
                x_admin_key := None; x_api_key := None;
                connection_remoteAddress := Some (js "127.0.0.1");
                socket_remoteAddress := Some (js "127.0.0.1");
                req_ip := Some (js "127.0.0.1");
                body := [("content", JString (js "hello"))] |} in
  let st := with_gate server_init
              (blockIP (JString (js "9.9.9.9")) ipManager_init) in
  isIPAllowed (clientIP req) (ipManager st) = false
  ∧ (app env POST_webhook req st).1 ≠ denied (clientIP req)
  ∧ dispatches (app env POST_webhook req st).1 = true
  ∧ (∃ resume,
       app env POST_webhook req st
       = (AwaitFetch (webhookUrl env) (ForwardedBody (body req)) resume, st)).
Proof.
  intros env req st.
  split_and!; [reflexivity | discriminate | reflexivity |].
  eexists. reflexivity.
Qed.

(** ** Concurrent admission calls *)

Lemma count_snoc {A} (p : A → bool) (l : list A) (a : A) :
  count p (l ++ [a]) = count p l + (if p a then 1 else 0).
Proof.
  unfold count. induction l as [| b l IH]; simpl.
  - by destruct (p a).
  - destruct (p b); simpl; lia.
Qed.

Lemma arrivals_cons t ts :
  arrivals (t :: ts)
  = (match t with Arrive _ _ => 1 | Settle _ _ => 0 end) + arrivals ts.
Proof. by destruct t. Qed.

(** An admission call for a well-formed [x], run as one turn: if [x] is not
    in the ledger it is inserted, and the notification is issued or failed
    to be built; if it is, the request is answered that the identifier is
    used; the gate is as it was. *)
Lemma admission_call_app env x r req st :
  well_formed x → admission_call env (ipManager st) x r req →
  ∃ o, app env r req st
       = (o, {| usedTransactionIds :=
                  if JSSet.has x (usedTransactionIds st)
                  then usedTransactionIds st
                  else JSSet.add x (usedTransactionIds st);
                ipManager := ipManager st |})
       ∧ is_admitted x o = negb (JSSet.has x (usedTransactionIds st))
       ∧ is_already_used o = JSSet.has x (usedTransactionIds st).
Proof.
  intros Hwf (Hgate & Hkey%api_key_strict_eq & (s & Hid & Hs & <-) & Hr).
  assert (Htruthy : truthy (JString s) = true)
    by (destruct s; [done | reflexivity]).
  destruct (JSSet.has (trim s) (usedTransactionIds st)) eqn:Hhas.
  - apply has_true in Hhas.
    pose proof (admit_used s _ Hwf Hhas) as Hadm.
    destruct Hr as [-> | (-> & Hname & Hemail)]; simpl;
      unfold checkIPAccess, webhook_payment, webhook_checkout;
      rewrite Hgate, Hkey, Hid, ?Hname, ?Hemail, Htruthy, Hadm; simpl;
      (eexists; split_and!; [destruct st; reflexivity | done | done]).
  - apply has_false in Hhas.
    pose proof (admit_fresh s _ Hwf Hhas) as Hadm.
    destruct Hr as [-> | (-> & Hname & Hemail)]; simpl;
      unfold checkIPAccess, webhook_payment, webhook_checkout;
      rewrite Hgate, Hkey, Hid, ?Hname, ?Hemail, Htruthy, Hadm; simpl;
      case_match;
      (eexists; split_and!;
         [reflexivity
         | first [by apply bool_decide_eq_true_2 | reflexivity]
         | done]).
Qed.

(** The outcomes of a run whose requests are all admission calls for [x]:
    every arrival adds one outcome; the arrivals are answered that the
    identifier is used, except the first when [x] was not in the ledger,
    which is the one admitted. *)
Lemma run_admission_calls env x g ts l :
  well_formed x →
  ipManager (server l) = g →
  Forall (admission_turn env g x) ts →
  let l' := run env ts l in
  let used := JSSet.has x (usedTransactionIds (server l)) in
  length (outcomes l') = length (outcomes l) + arrivals ts
  ∧ count (is_admitted x) (outcomes l')
    = count (is_admitted x) (outcomes l)
      + (if used then 0 else Nat.min 1 (arrivals ts))
  ∧ count is_already_used (outcomes l')
    = count is_already_used (outcomes l)
      + (if used then arrivals ts else arrivals ts - 1).
Proof.
  intros Hwf Hg Hts. revert l Hg.
  induction Hts as [| t ts Ht Hts IH]; intros l Hg; simpl.
  - destruct (JSSet.has x _); unfold arrivals, count; simpl; lia.
  - rewrite arrivals_cons. destruct t as [r req | conn response].
    + simpl in Ht. rewrite <- Hg in Ht.
      destruct (admission_call_app env x r req (server l) Hwf Ht)
        as (o & Happ & Hadm & Hau).
      specialize (IH (turn env l (Arrive r req))). simpl in IH.
      rewrite Happ in IH. simpl in IH. specialize (IH Hg).
      simpl. rewrite Happ.
      destruct IH as (IHlen & IHadm & IHau).
      rewrite IHlen, IHadm, IHau, length_app, !count_snoc, Hadm, Hau.
      destruct (JSSet.has x (usedTransactionIds (server l))) eqn:Hhas; simpl.
      * rewrite Hhas. lia.
      * assert (JSSet.has x (JSSet.add x (usedTransactionIds (server l))) = true)
          as -> by apply has_true, add_elem.
        simpl. lia.
    + assert (Hsame : server (turn env l (Settle conn response)) = server l
                      ∧ outcomes (turn env l (Settle conn response))
                        = outcomes l)
        by (simpl; repeat case_match; done).
      destruct Hsame as [Hserver Houtcomes].
      specialize (IH (turn env l (Settle conn response))).
      rewrite Hserver, Houtcomes in IH. specialize (IH Hg).
      destruct IH as (IHlen & IHadm & IHau). simpl in *.
      rewrite IHlen, IHadm, IHau. done.
Qed.

(** C9. The check of the ledger and the insertion are in one turn of the
    event loop, with no await between them. So when admission calls for the
    same well-formed identifier, not yet in the ledger, are in flight
    together, in whatever order they arrive and however the settling of
    their fetches is interleaved with the arrivals, exactly one of the N
    calls is admitted and the other N-1 are answered that the identifier is
    used. *)
Theorem concurrent_admissions
    (env : Env) (x : jsstring) (st : ServerState) (ts : list Turn) :
  well_formed x →
  x ∉ usedTransactionIds st →
  Forall (admission_turn env (ipManager st) x) ts →
  1 ≤ arrivals ts →
  let l := run env ts {| server := st; outcomes := []; replies := [] |} in
  length (outcomes l) = arrivals ts
  ∧ count (is_admitted x) (outcomes l) = 1
  ∧ count is_already_used (outcomes l) = arrivals ts - 1.
Proof.
  intros Hwf Hfresh%has_false Hts Hn.
  pose proof (run_admission_calls env x (ipManager st) ts
                {| server := st; outcomes := []; replies := [] |}
                Hwf eq_refl Hts) as H.
  cbv zeta in *. cbn [server outcomes] in H. rewrite Hfresh in H.
  destruct H as (Hlen & Hadm & Hau). rewrite Hlen, Hadm, Hau.
  change (count (is_admitted x) []) with 0.
  change (count is_already_used []) with 0.
  change (length (@nil Outcome)) with 0.
  split_and!; lia.
Qed.

(** An instance of C9: three requests in flight for TXN-12345678, a
    checkout, a payment whose identifier carries surrounding blanks, and a
    second checkout, with the first fetch settling between the arrivals. *)
Lemma concurrent_admissions_witness :
  let env := {| ADMIN_KEY := None; API_KEY := Some (js "k3y");
                DISCORD_WEBHOOK_URL := None |} in
  let req raw := {| x_forwarded_for := None; x_real_ip := None;
                    x_admin_key := None; x_api_key := Some (js "k3y");
                    connection_remoteAddress := Some (js "127.0.0.1");
                    socket_remoteAddress := Some (js "127.0.0.1");
                    req_ip := Some (js "127.0.0.1");
                    body := [("transactionId", JString (js raw));
                             ("customerName", JString (js "John"));
                             ("customerEmail", JString (js "john@example.com"))] |} in
  let ts := [Arrive POST_webhook_checkout (req "TXN-12345678");
             Arrive POST_webhook_payment (req "  TXN-12345678 ");
             Settle 0 FetchOk;
             Arrive POST_webhook_checkout (req "TXN-12345678")] in
  let l := run env ts loop_init in
  length (outcomes l) = 3
  ∧ count (is_admitted (js "TXN-12345678")) (outcomes l) = 1
  ∧ count is_already_used (outcomes l) = 2.
Proof.
  intros env req ts l.
  assert (Hwf : well_formed (js "TXN-12345678")).
  { split; [vm_compute; lia |].
    eapply bool_decide_eq_true_1. vm_compute. reflexivity. }
  assert (Hfresh : js "TXN-12345678" ∉ usedTransactionIds server_init)
    by apply not_elem_of_nil.
  assert (Hts : Forall (admission_turn env (ipManager server_init)
                          (js "TXN-12345678")) ts).
  { repeat apply Forall_cons_2; try apply Forall_nil_2; try exact I;
      (split_and!;
       [reflexivity | reflexivity
       | eexists; split_and!; [reflexivity | discriminate | reflexivity]
       | first [by left | right; split_and!; reflexivity]]). }
  exact (concurrent_admissions env (js "TXN-12345678") server_init ts
           Hwf Hfresh Hts ltac:(vm_compute; lia)).
Defined.

(** * Further properties of the server *)

(** ** Normalisation of identifiers *)

Lemma trimStart_blank pre t : blank pre → trimStart (pre ++ t) = trimStart t.
Proof.
  induction 1 as [| c pre Hc _ IH]; simpl; [done |]. by rewrite Hc.
Qed.

Lemma trimStart_all_blank s : blank s → trimStart s = [].
Proof.
  intros Hs. rewrite <- (app_nil_r s). by rewrite trimStart_blank.
Qed.

Lemma blank_rev s : blank s → blank (rev s).
Proof.
  unfold blank. rewrite !Forall_forall. intros Hs c Hc. apply Hs.
  apply list_elem_of_In. apply list_elem_of_In in Hc. by apply in_rev.
Qed.

(** White space around a string that neither starts nor ends with white
    space is exactly what [trim] removes. *)
Lemma trim_padded pre t post :
  blank pre → blank post →
  (∀ c u, t = c :: u → isStrWhiteSpaceChar c = false) →
  (∀ u c, t = u ++ [c] → isStrWhiteSpaceChar c = false) →
  trim (pre ++ t ++ post) = t.
Proof.
  intros Hpre Hpost Hfirst Hlast. unfold trim.
  rewrite trimStart_blank by done.
  destruct t as [| c u].
  - simpl. rewrite trimStart_all_blank by done. done.
  - assert (trimStart ((c :: u) ++ post) = (c :: u) ++ post) as ->
      by (apply trimStart_fixed; eauto).
    unfold trimEnd. rewrite rev_app_distr, trimStart_blank by by apply blank_rev.
    destruct (rev (c :: u)) as [| d w] eqn:Hrev.
    + apply (f_equal (@rev N)) in Hrev. rewrite rev_involutive in Hrev. done.
    + rewrite trimStart_fixed.
      * rewrite <- Hrev. apply rev_involutive.
      * apply (Hlast (rev w)). apply (f_equal (@rev N)) in Hrev.
        rewrite rev_involutive in Hrev. by rewrite Hrev.
Qed.

(** X1. White space around a well-formed identifier does not matter: the
    padded string is admitted as the identifier itself when that is not in
    the ledger, and rejected as already used when it is. *)
Theorem padded_identifier (pre post x : jsstring) (ledger : JSSet.t jsstring) :
  blank pre → blank post → well_formed x →
  trim (pre ++ x ++ post) = x
  ∧ validate_and_admit ledger (JString (pre ++ x ++ post))
    = if JSSet.has x ledger
      then (Rejected (error_message AlreadyUsed), ledger)
      else (AdmittedId x, JSSet.add x ledger).
Proof.
  intros Hpre Hpost Hwf.
  assert (Htrim : trim (pre ++ x ++ post) = x).
  { destruct Hwf as [_ Hall]. rewrite Forall_forall in Hall.
    apply trim_padded; try done.
    - intros c u ->. apply charset_not_space, Hall. by left.
    - intros u c ->. apply charset_not_space, Hall.
      apply elem_of_app. right. by left. }
  split; [done |]. rewrite <- Htrim in Hwf.
  destruct (JSSet.has x ledger) eqn:Hhas.
  - apply has_true in Hhas. rewrite <- Htrim in Hhas.
    rewrite (admit_used _ _ Hwf Hhas). done.
  - apply has_false in Hhas. rewrite <- Htrim in Hhas.
    rewrite (admit_fresh _ _ Hwf Hhas). by rewrite Htrim.
Qed.

(** An instance of X1: blanks, a tab and a line feed around TXN-12345678,
    once the identifier is in the ledger. *)
Lemma padded_identifier_witness :
  validate_and_admit [js "TXN-12345678"]
    (JString ([0x20; 0x9]%N ++ js "TXN-12345678" ++ [0xA]%N))
  = (Rejected "Transaction ID has already been used", [js "TXN-12345678"]).
Proof.
  assert (Hwf : well_formed (js "TXN-12345678")).
  { split; [vm_compute; lia |].
    eapply bool_decide_eq_true_1. vm_compute. reflexivity. }
  assert (Hb : ∀ s, bool_decide (blank s) = true → blank s)
    by (intros s; apply bool_decide_eq_true_1).
  destruct (padded_identifier [0x20; 0x9]%N [0xA]%N (js "TXN-12345678")
              [js "TXN-12345678"]) as [_ H];
    [apply Hb; vm_compute; reflexivity | apply Hb; vm_compute; reflexivity
    | exact Hwf |].
  exact H.
Defined.

(** ** The ledger's contents *)

Lemma validate_and_admit_invariant ledger raw :
  NoDup ledger → Forall well_formed ledger →
  NoDup (validate_and_admit ledger raw).2
  ∧ Forall well_formed (validate_and_admit ledger raw).2.
Proof.
  intros Hnd Hwf.
  destruct (validate_and_admit_cases ledger raw)
    as [(e & ->) | (x & Hx & Hwfx & ->)]; simpl; [done |].
  split; [by apply NoDup_add |].
  unfold JSSet.add. apply has_false in Hx. rewrite Hx.
  apply Forall_app. split; [done | by constructor].
Qed.

(** X2. Whatever requests the process has served since it started, the
    ledger holds well-formed identifiers only (8 to 100 allowed characters,
    as trimmed), each of them once. *)
Theorem ledger_holds_well_formed (env : Env) (ts : list Turn) :
  NoDup (usedTransactionIds (server (run env ts loop_init)))
  ∧ Forall well_formed (usedTransactionIds (server (run env ts loop_init))).
Proof.
  assert (Hinv : ∀ l,
    NoDup (usedTransactionIds (server l))
    ∧ Forall well_formed (usedTransactionIds (server l)) →
    NoDup (usedTransactionIds (server (run env ts l)))
    ∧ Forall well_formed (usedTransactionIds (server (run env ts l)))).
  { induction ts as [| t ts IH]; intros l Hl; [done |].
    simpl. apply IH. destruct t as [r req | conn response]; simpl.
    - pose proof (app_ledger env r req (server l)) as Happ.
      destruct (app env r req (server l)) as [o st]. simpl in *.
      destruct Happ as [-> | [raw ->]]; [done |].
      destruct Hl. by apply validate_and_admit_invariant.
    - repeat case_match; done. }
  apply Hinv. simpl. split; [apply NoDup_nil_2 | apply Forall_nil_2].
Qed.

(** ** The checkout and payment handlers *)

(** X3. Past the gate and the API key, the handlers look at the required
    fields before they validate the identifier: a checkout request that
    lacks its identifier, customer name or customer email, and a payment
    request that lacks its identifier, is answered that fields are missing;
    an identifier that is there but is not a string (a number, [true], an
    object) is answered that it must be a non-empty string. In both cases
    the ledger is as it was. *)
Theorem required_fields_first (env : Env) (req : Request) (st : ServerState) :
  isIPAllowed (clientIP req) (ipManager st) = true →
  of_option (x_api_key req) = expectedApiKey env →
  let id := prop "transactionId" (body req) in
  let name := prop "customerName" (body req) in
  let email := prop "customerEmail" (body req) in
  (truthy id && truthy name && truthy email = false →
   app env POST_webhook_checkout req st
   = (respond 400
        (ErrorBody
           "Missing required fields: transactionId, customerName, customerEmail"),
      st))
  ∧ (truthy id = false →
     app env POST_webhook_payment req st
     = (respond 400 (ErrorBody "Missing required field: transactionId"), st))
  ∧ (truthy id = true → typeof id ≠ "string" →
     app env POST_webhook_payment req st
     = (respond 400 (ErrorBody (error_message Empty)), st)
     ∧ (truthy name && truthy email = true →
        app env POST_webhook_checkout req st
        = (respond 400 (ErrorBody (error_message Empty)), st))).
Proof.
  intros Hgate Hkey%api_key_strict_eq. simpl.
  unfold checkIPAccess, webhook_checkout, webhook_payment.
  rewrite Hgate, Hkey. simpl. split_and!.
  - intros Hmissing.
    destruct (truthy (prop "transactionId" (body req))),
             (truthy (prop "customerName" (body req))),
             (truthy (prop "customerEmail" (body req))); done.
  - by intros ->.
  - intros Hid Hty.
    assert (Hrej : validate_and_admit (usedTransactionIds st)
                     (prop "transactionId" (body req))
                   = (Rejected (error_message Empty), usedTransactionIds st)).
    { unfold validate_and_admit, validateTransactionId.
      by rewrite (bool_decide_eq_false_2 _ Hty), orb_true_r. }
    rewrite Hid, Hrej. simpl. split; [done |].
    intros Hfields%andb_prop. destruct Hfields as [-> ->]. done.
Qed.

(** An instance of X3: a payment request whose identifier is the number
    12345678. *)
Lemma required_fields_first_witness :
  let env := {| ADMIN_KEY := None; API_KEY := Some (js "k3y");
                DISCORD_WEBHOOK_URL := None |} in
  let req := {| x_forwarded_for := None; x_real_ip := None;
                x_admin_key := None; x_api_key := Some (js "k3y");
                connection_remoteAddress := Some (js "127.0.0.1");
                socket_remoteAddress := Some (js "127.0.0.1");
                req_ip := Some (js "127.0.0.1");
                body := [("transactionId", JNumber 12345678)] |} in
  app env POST_webhook_payment req server_init
  = (respond 400 (ErrorBody "Transaction ID must be a non-empty string"),
     server_init).
Proof.
  intros env req.
  destruct (required_fields_first env req server_init eq_refl eq_refl)
    as (_ & _ & H).
  destruct (H eq_refl) as [Hpay _]; [discriminate | exact Hpay].
Defined.

(** The outcome of an admission call for an identifier that is not in the
    ledger: the identifier is inserted; then either the notification is
    issued, and the client is answered 200 when the post succeeds and 500
    when it does not, or building the notification fails and the client is
    answered 500 at once. *)
Lemma admitted_outcome env x r req st :
  well_formed x → x ∉ usedTransactionIds st →
  admission_call env (ipManager st) x r req →
  ∃ o,
    app env r req st
    = (o, {| usedTransactionIds := JSSet.add x (usedTransactionIds st);
             ipManager := ipManager st |})
    ∧ ((∃ url payload resume,
          o = AwaitFetch url payload resume
          ∧ (∃ message, resume FetchOk
                        = {| status := 200; json := ValidatedBody message x |})
          ∧ (∀ response, response ≠ FetchOk →
               ∃ error, resume response
                        = {| status := 500; json := ErrorBody error |}))
       ∨ (∃ res, o = Done res ∧ embed_failed res = true)).
Proof.
  intros Hwf Hfresh (Hgate & Hkey%api_key_strict_eq & (s & Hid & Hs & <-) & Hr).
  assert (Htruthy : truthy (JString s) = true)
    by (destruct s; [done | reflexivity]).
  pose proof (admit_fresh s _ Hwf Hfresh) as Hadm.
  destruct Hr as [-> | (-> & Hname & Hemail)]; simpl;
    unfold checkIPAccess, webhook_payment, webhook_checkout;
    rewrite Hgate, Hkey, Hid, ?Hname, ?Hemail, Htruthy, Hadm; simpl;
    case_match; (eexists; split; [reflexivity |]);
    first [ by (right; eexists; split; [reflexivity | reflexivity])
          | left; do 3 eexists; split_and!; [reflexivity | eauto |];
            intros [| n |] Hne; try done; eauto ].
Qed.

(** A checkout request whose fields are strings and whose identifier is
    not in the ledger: the notification is issued, and the client is
    answered 200 when the post succeeds. *)
Lemma checkout_admits env x req st :
  well_formed x → x ∉ usedTransactionIds st →
  admission_call env (ipManager st) x POST_webhook_checkout req →
  interpolates (prop "customerName" (body req)) = true →
  interpolates (prop "customerEmail" (body req)) = true →
  interpolates (js_or (prop "customerDiscord" (body req))
                      (JString (js "Not provided"))) = true →
  ∃ url payload resume,
    app env POST_webhook_checkout req st
    = (AwaitFetch url payload resume,
       {| usedTransactionIds := JSSet.add x (usedTransactionIds st);
          ipManager := ipManager st |})
    ∧ resume FetchOk
      = {| status := 200;
           json := ValidatedBody "Checkout notification sent" x |}.
Proof.
  intros Hwf Hfresh (Hgate & Hkey%api_key_strict_eq & (s & Hid & Hs & <-) & Hr)
    Hn He Hd.
  assert (Htruthy : truthy (JString s) = true)
    by (destruct s; [done | reflexivity]).
  pose proof (admit_fresh s _ Hwf Hfresh) as Hadm.
  destruct Hr as [[=] | (_ & Hname & Hemail)]. simpl.
  unfold checkIPAccess, webhook_checkout.
  rewrite Hgate, Hkey, Hid, Hname, Hemail, Htruthy, Hadm, Hn, He, Hd. simpl.
  do 3 eexists. split; reflexivity.
Qed.

Lemma is_already_used_inv o :
  is_already_used o = true →
  o = respond 400 (ErrorBody (error_message AlreadyUsed)).
Proof.
  destruct o as [res | ? ? ?]; simpl; [| done].
  intros ->%bool_decide_eq_true. done.
Qed.

(** X4. An identifier is consumed when it is admitted, not when the
    notification is delivered: if the post to the chat webhook fails, the
    client is answered 500 when the post has settled; if the notification
    cannot even be built, nothing is posted and the client is answered 500 at
    once. Either way the same request sent again is answered that the
    identifier has already been used. *)
Theorem failed_notification_consumes
    (env : Env) (x : jsstring) (r : Route) (req : Request) (st : ServerState)
    (response : FetchResult) :
  well_formed x → x ∉ usedTransactionIds st →
  admission_call env (ipManager st) x r req →
  response ≠ FetchOk →
  let l := run env [Arrive r req; Settle 0 response; Arrive r req]
             {| server := st; outcomes := []; replies := [] |} in
  (∃ o error,
     outcomes l !! 0 = Some o
     ∧ if dispatches o
       then replies l = [(0, {| status := 500; json := ErrorBody error |})]
       else o = respond 500 (ErrorBody error) ∧ replies l = [])
  ∧ outcomes l !! 1
    = Some (respond 400 (ErrorBody (error_message AlreadyUsed)))
  ∧ x ∈ usedTransactionIds (server l).
Proof.
  intros Hwf Hfresh Hcall Hfail.
  destruct (admitted_outcome env x r req st Hwf Hfresh Hcall)
    as (o0 & Happ & Ho0).
  set (st1 := {| usedTransactionIds := JSSet.add x (usedTransactionIds st);
                 ipManager := ipManager st |}) in *.
  destruct (admission_call_app env x r req st1 Hwf Hcall)
    as (o & Happ1 & _ & Hused).
  assert (Hin : JSSet.has x (usedTransactionIds st1) = true)
    by apply has_true, add_elem.
  rewrite Hin in Happ1, Hused. apply is_already_used_inv in Hused. subst o.
  cbv zeta. cbn [run foldl turn server outcomes replies].
  rewrite Happ. cbn [server outcomes replies app lookup].
  destruct Ho0 as [(url & payload & resume & -> & _ & Hresume)
                  | (res & -> & Hres)].
  - destruct (Hresume response Hfail) as [error Herror].
    simpl. rewrite Happ1. simpl. rewrite Herror. split_and!.
    + eexists _, error. split; [reflexivity | done].
    + done.
    + apply add_elem.
  - simpl. rewrite Happ1. simpl. split_and!.
    + apply bool_decide_eq_true in Hres.
      rewrite !elem_of_cons in Hres.
      destruct Hres as [-> | [-> | Hnil]]; [| | by apply elem_of_nil in Hnil];
        (eexists _, _; split; [reflexivity | done]).
    + done.
    + apply add_elem.
Qed.

(** An instance of X4: a checkout request for TXN-12345678 whose post is
    answered 429 by the chat webhook. *)
Lemma failed_notification_consumes_witness :
  let env := {| ADMIN_KEY := None; API_KEY := Some (js "k3y");
                DISCORD_WEBHOOK_URL := None |} in
  let req := {| x_forwarded_for := None; x_real_ip := None;
                x_admin_key := None; x_api_key := Some (js "k3y");
                connection_remoteAddress := Some (js "127.0.0.1");
                socket_remoteAddress := Some (js "127.0.0.1");
                req_ip := Some (js "127.0.0.1");
                body := [("transactionId", JString (js "TXN-12345678"));
                         ("customerName", JString (js "John"));
                         ("customerEmail", JString (js "john@example.com"))] |} in
  let l := run env [Arrive POST_webhook_checkout req; Settle 0 (FetchNotOk 429);
                    Arrive POST_webhook_checkout req] loop_init in
  outcomes l !! 1
  = Some (respond 400 (ErrorBody "Transaction ID has already been used")).
Proof.
  intros env req l.
  assert (Hwf : well_formed (js "TXN-12345678")).
  { split; [vm_compute; lia |].
    eapply bool_decide_eq_true_1. vm_compute. reflexivity. }
  assert (Hcall : admission_call env (ipManager server_init)
                    (js "TXN-12345678") POST_webhook_checkout req).
  { split_and!;
      [reflexivity | reflexivity
      | eexists; split_and!; [reflexivity | discriminate | reflexivity]
      | right; split_and!; reflexivity]. }
  destruct (failed_notification_consumes env (js "TXN-12345678")
              POST_webhook_checkout req server_init (FetchNotOk 429)
              Hwf (not_elem_of_nil _) Hcall ltac:(discriminate))
    as (_ & H & _).
  exact H.
Defined.

Lemma add_fresh_ne {A} `{EqDecision A} (x : A) (s : JSSet.t A) :
  x ∉ s → JSSet.add x s ≠ s.
Proof.
  intros Hx%has_false Heq. unfold JSSet.add in Heq. rewrite Hx in Heq.
  apply (f_equal length) in Heq. rewrite length_app in Heq. simpl in Heq. lia.
Qed.

(** X5. The ledger changes exactly when a checkout or payment request
    gets its identifier admitted: the request then issues its notification,
    or fails to build it and is answered 500. The ledger then grows by that
    one new well-formed identifier, appended. No other endpoint, and no
    request rejected before, touches it. *)
Theorem consumed_iff_notified
    (env : Env) (r : Route) (req : Request) (st : ServerState) :
  let o := (app env r req st).1 in
  let used := usedTransactionIds st in
  let used' := usedTransactionIds (app env r req st).2 in
  (used' ≠ used
   ↔ (r = POST_webhook_checkout ∨ r = POST_webhook_payment)
     ∧ (dispatches o = true ∨ ∃ res, o = Done res ∧ embed_failed res = true))
  ∧ (used' ≠ used →
     ∃ x, (x ∉ used) ∧ well_formed x ∧ used' = used ++ [x]
          ∧ is_admitted x o = true).
Proof.
  assert (Hadm : ∀ raw x used',
    validate_and_admit (usedTransactionIds st) raw = (AdmittedId x, used') →
    (x ∉ usedTransactionIds st) ∧ well_formed x
    ∧ used' = usedTransactionIds st ++ [x]).
  { intros raw x used' Heq.
    destruct (validate_and_admit_cases (usedTransactionIds st) raw)
      as [(e & He) | (y & Hy & Hwf & Hy')]; rewrite Heq in *; [done |].
    injection Hy' as -> ->. split_and!; [done | done |].
    unfold JSSet.add. by apply has_false in Hy as ->. }
  assert (Hnot : ∀ res, embed_failed res = true → status res = 500).
  { intros res Hres.
    apply bool_decide_eq_true in Hres. rewrite !elem_of_cons in Hres.
    destruct Hres as [-> | [-> | Hnil]]; [done | done |].
    by apply elem_of_nil in Hnil. }
  destruct r; simpl;
    unfold admin_ip_status, admin_block_ip, admin_allow_ip, admin_remove_ip,
      admin_set_mode, webhook, webhook_test, checkIPAccess, webhook_checkout,
      webhook_payment;
    repeat case_match; simpl; unfold respond;
    try (split; [split; [done | intros [[? | ?] ?]; done] | done]);
    try (split;
         [ split;
           [ done
           | intros [_ [Hf | (res & [= <-] & Hres%Hnot)]]; discriminate ]
         | done ]);
    match goal with
    | H : validate_and_admit _ _ = (AdmittedId _, _) |- _ =>
        destruct (Hadm _ _ _ H) as (Hx & Hwf & ->)
    end;
    (split;
     [ split;
       [ intros _; split; [auto |];
         first [ by left | right; eexists; split; reflexivity ]
       | intros _ Heq; apply (f_equal length) in Heq;
         rewrite length_app in Heq; simpl in Heq; lia ]
     | intros _; eexists; split_and!; [done | done | done |];
       first [ by apply bool_decide_eq_true_2 | reflexivity ] ]).
Qed.

(** ** The gate's sets *)

Section JSSetAlgebra.
Context {A : Type} `{EqDecision A}.
Implicit Types (x y : A) (s : JSSet.t A).

Lemma delete_absent x s : x ∉ s → JSSet.delete x s = s.
Proof.
  intros Hx. unfold JSSet.delete, JSSet.t in *.
  induction s as [| y s IH]; [done |].
  apply not_elem_of_cons in Hx as [Hne Hx].
  rewrite filter_cons_True by done. f_equal. by apply IH.
Qed.

Lemma delete_delete x s : JSSet.delete x (JSSet.delete x s) = JSSet.delete x s.
Proof. apply delete_absent. rewrite elem_of_delete. tauto. Qed.

Lemma add_present x s : x ∈ s → JSSet.add x s = s.
Proof. intros Hx%has_true. unfold JSSet.add. by rewrite Hx. Qed.

Lemma add_add x s : JSSet.add x (JSSet.add x s) = JSSet.add x s.
Proof. apply add_present, add_elem. Qed.

Lemma delete_add x s : x ∉ s → JSSet.delete x (JSSet.add x s) = s.
Proof.
  intros Hx. unfold JSSet.add. apply has_false in Hx as Hhas. rewrite Hhas.
  pose proof (delete_absent x s Hx) as Hd.
  unfold JSSet.delete, JSSet.t in *. rewrite filter_app, Hd.
  rewrite filter_cons_False by (intros Hn; by apply Hn).
  by rewrite filter_nil, app_nil_r.
Qed.
End JSSetAlgebra.

(** X6. The gate's operations are idempotent, removing an address that is
    in neither set changes nothing, and removing an address right after it
    was blocked or allowed for the first time gives back the gate as it was,
    the order of the other addresses included. *)
Theorem gate_ops_idempotent (ip : jsval) (g : IpManager) :
  blockIP ip (blockIP ip g) = blockIP ip g
  ∧ allowIP ip (allowIP ip g) = allowIP ip g
  ∧ removeIP ip (removeIP ip g) = removeIP ip g
  ∧ (ip ∉ blockedIPs g → ip ∉ allowedIPs g →
     removeIP ip g = g
     ∧ removeIP ip (blockIP ip g) = g
     ∧ removeIP ip (allowIP ip g) = g).
Proof.
  destruct g as [blocked allowed m].
  unfold blockIP, allowIP, removeIP. simpl. split_and!.
  - by rewrite add_add, delete_delete.
  - by rewrite add_add, delete_delete.
  - by rewrite !delete_delete.
  - intros Hb Ha. split_and!.
    + by rewrite !delete_absent.
    + by rewrite delete_add, delete_delete, delete_absent.
    + by rewrite delete_add, delete_delete, delete_absent.
Qed.

(** An instance of X6: 9.9.9.9 blocked and then removed, on a gate that
    already blocks 8.8.8.8. *)
Lemma gate_ops_idempotent_witness :
  let g := blockIP (JString (js "8.8.8.8")) ipManager_init in
  removeIP (JString (js "9.9.9.9")) (blockIP (JString (js "9.9.9.9")) g) = g.
Proof.
  intros g.
  destruct (gate_ops_idempotent (JString (js "9.9.9.9")) g) as (_ & _ & _ & H).
  assert (Hn : ∀ (a : jsval) (l : list jsval),
                 bool_decide (a ∉ l) = true → a ∉ l)
    by (intros a l; apply bool_decide_eq_true_1).
  destruct H as (_ & Hundo & _);
    [apply Hn; vm_compute; reflexivity | apply Hn; vm_compute; reflexivity |].
  exact Hundo.
Defined.

Lemma gate_op_NoDup g op :
  NoDup (blockedIPs g) → NoDup (allowedIPs g) →
  NoDup (blockedIPs (gate_op g op)) ∧ NoDup (allowedIPs (gate_op g op)).
Proof.
  intros Hb Ha. destruct op; simpl;
    split; try done; by (apply NoDup_add || apply NoDup_delete).
Qed.

(** X7. Whatever requests the process has served since it started, no
    address is listed twice in the blocked or in the allowed addresses of the
    status, so the two counts of the status count distinct addresses. *)
Theorem status_lists_distinct (env : Env) (ts : list Turn) :
  let status := getStatus (ipManager (server (run env ts loop_init))) in
  NoDup (status_blockedIPs status)
  ∧ NoDup (status_allowedIPs status)
  ∧ blockedCount status = length (status_blockedIPs status)
  ∧ allowedCount status = length (status_allowedIPs status).
Proof.
  assert (Hinv : ∀ l,
    NoDup (blockedIPs (ipManager (server l)))
    ∧ NoDup (allowedIPs (ipManager (server l))) →
    NoDup (blockedIPs (ipManager (server (run env ts l))))
    ∧ NoDup (allowedIPs (ipManager (server (run env ts l))))).
  { induction ts as [| t ts IH]; intros l Hl; [done |].
    simpl. apply IH. destruct t as [r req | conn response]; simpl.
    - pose proof (app_gate env r req (server l)) as Happ.
      destruct (app env r req (server l)) as [o st]. simpl in *.
      destruct Happ as [-> | (_ & _ & op & ->)]; [done |].
      destruct Hl. by apply gate_op_NoDup.
    - repeat case_match; done. }
  destruct (Hinv loop_init) as [Hb Ha];
    [split; apply NoDup_nil_2 |].
  simpl. split_and!; done.
Qed.

(** X8. In whitelist mode, taking the last allowed address off the list
    opens the gate to everyone: with A the only allowed address every other
    address is denied, and after A is blocked or removed every address is
    allowed, A itself included. *)
Theorem last_allowed_reopens (A addr : jsval) (g : IpManager) :
  whitelistMode g = true → allowedIPs g = [A] →
  (addr ≠ A → isIPAllowed addr g = false)
  ∧ isIPAllowed addr (blockIP A g) = true
  ∧ isIPAllowed addr (removeIP A g) = true
  ∧ isIPAllowed A (blockIP A g) = true
  ∧ A ∈ blockedIPs (blockIP A g).
Proof.
  intros Hm Hallowed.
  assert (Hempty : JSSet.delete A (allowedIPs g) = []).
  { rewrite Hallowed. unfold JSSet.delete.
    rewrite filter_cons_False by (intros Hn; by apply Hn). done. }
  split_and!.
  - intros Hne. apply not_true_iff_false.
    rewrite isIPAllowed_whitelist by done. rewrite Hallowed.
    intros [Hin | Hnil]; [| done].
    apply list_elem_of_singleton in Hin. done.
  - apply isIPAllowed_whitelist; [done | right; exact Hempty].
  - apply isIPAllowed_whitelist; [done | right; exact Hempty].
  - apply isIPAllowed_whitelist; [done | right; exact Hempty].
  - simpl. apply add_elem.
Qed.

(** An instance of X8: whitelist mode with 5.6.7.8 the only allowed
    address. *)
Lemma last_allowed_reopens_witness :
  let A := JString (js "5.6.7.8") in
  let g := allowIP A (setMode (JString (js "whitelist")) ipManager_init) in
  isIPAllowed (JString (js "1.2.3.4")) g = false
  ∧ isIPAllowed (JString (js "1.2.3.4")) (blockIP A g) = true
  ∧ isIPAllowed A (blockIP A g) = true.
Proof.
  intros A g.
  destruct (last_allowed_reopens A (JString (js "1.2.3.4")) g eq_refl eq_refl)
    as (Hdenied & Hopen & _ & HA & _).
  split_and!; [apply Hdenied; vm_compute; congruence | exact Hopen | exact HA].
Defined.

(** X9. An operation on one address never changes whether another address
    is in either set: addresses are compared as they are, so blocking a
    string with a blank in front does not block the address without it. In
    blacklist mode the decision for the other address stays as it was. *)
Theorem other_addresses_untouched (a b : jsval) (g : IpManager) (op : GateOp) :
  a ≠ b →
  op = Block a ∨ op = Allow a ∨ op = Remove a →
  (b ∈ blockedIPs (gate_op g op) ↔ b ∈ blockedIPs g)
  ∧ (b ∈ allowedIPs (gate_op g op) ↔ b ∈ allowedIPs g)
  ∧ (whitelistMode g = false →
     isIPAllowed b (gate_op g op) = isIPAllowed b g).
Proof.
  intros Hne Hop.
  assert (Hsets : (b ∈ blockedIPs (gate_op g op) ↔ b ∈ blockedIPs g)
                  ∧ (b ∈ allowedIPs (gate_op g op) ↔ b ∈ allowedIPs g)).
  { destruct Hop as [-> | [-> | ->]]; simpl;
      rewrite ?elem_of_add, ?elem_of_delete; split; split; intuition congruence. }
  destruct Hsets as [Hb Ha]. split_and!; [done | done |].
  intros Hm.
  assert (Hm' : whitelistMode (gate_op g op) = false)
    by (destruct Hop as [-> | [-> | ->]]; done).
  apply eq_true_iff_eq.
  by rewrite (isIPAllowed_blacklist b _ Hm'), (isIPAllowed_blacklist b _ Hm), Hb.
Qed.

(** An instance of X9: blocking the string with a leading blank leaves
    1.2.3.4 allowed. *)
Lemma other_addresses_untouched_witness :
  isIPAllowed (JString (js "1.2.3.4"))
    (blockIP (JString (js " 1.2.3.4")) ipManager_init) = true.
Proof.
  destruct (other_addresses_untouched (JString (js " 1.2.3.4"))
              (JString (js "1.2.3.4")) ipManager_init
              (Block (JString (js " 1.2.3.4")))
              ltac:(vm_compute; congruence) (or_introl eq_refl))
    as (_ & _ & H).
  exact (eq_trans (H eq_refl) eq_refl).
Defined.

(** ** The address the gate looks at *)

Lemma fresh_address (l : list jsval) :
  ∃ n, ∀ m, n ≤ m → JString (repeat 0x30%N m) ∉ l.
Proof.
  induction l as [| v l [n IH]].
  - exists 0. intros m _. apply not_elem_of_nil.
  - destruct v as [| | b | z | s | ref];
      try (exists n; intros m Hm; apply not_elem_of_cons; split;
           [discriminate | by apply IH]).
    exists (Nat.max n (S (length s))). intros m Hm.
    apply not_elem_of_cons. split; [| apply IH; lia].
    intros [= Heq]. apply (f_equal length) in Heq.
    rewrite repeat_length in Heq. lia.
Qed.

(** X10. The gate decides on the forwarded-for header whenever the request
    carries a non-empty one, whatever the address of the peer. So in
    blacklist mode the gate keeps no client out: whatever addresses are
    blocked, there is a header value with which every checkout and payment
    request goes on to its handler. *)
Theorem forwarded_for_decides (st : ServerState) :
  (∀ req a, a ≠ [] → clientIP (with_forwarded_for req (Some a)) = JString a)
  ∧ (whitelistMode (ipManager st) = false →
     ∃ a, a ≠ []
          ∧ ∀ env req,
              app env POST_webhook_checkout (with_forwarded_for req (Some a)) st
              = webhook_checkout env (with_forwarded_for req (Some a)) st
              ∧ app env POST_webhook_payment (with_forwarded_for req (Some a)) st
                = webhook_payment env (with_forwarded_for req (Some a)) st).
Proof.
  assert (Hip : ∀ req a, a ≠ [] →
                  clientIP (with_forwarded_for req (Some a)) = JString a)
    by (intros req [| c a] Ha; done).
  split; [exact Hip |]. intros Hm.
  destruct (fresh_address (blockedIPs (ipManager st))) as [n Hn].
  assert (Hok : isIPAllowed (JString (repeat 0x30%N (S n))) (ipManager st)
                = true)
    by (apply isIPAllowed_blacklist; [done | apply Hn; lia]).
  assert (Hne : repeat 0x30%N (S n) ≠ []) by done.
  remember (repeat 0x30%N (S n)) as a eqn:Ha. clear Ha.
  exists a. split; [done |].
  intros env req. cbn [app]. unfold checkIPAccess.
  rewrite (Hip req a Hne), Hok. done.
Qed.

(** An instance of X10: 9.9.9.9 is blocked and is the peer's address; with
    a forwarded-for header of 1.1.1.1 the gate lets the request through. *)
Lemma forwarded_for_decides_witness :
  let st := with_gate server_init
              (blockIP (JString (js "9.9.9.9")) ipManager_init) in
  let req := {| x_forwarded_for := None; x_real_ip := None;
                x_admin_key := None; x_api_key := None;
                connection_remoteAddress := Some (js "9.9.9.9");
                socket_remoteAddress := Some (js "9.9.9.9");
                req_ip := Some (js "9.9.9.9"); body := [] |} in
  isIPAllowed (clientIP req) (ipManager st) = false
  ∧ isIPAllowed (clientIP (with_forwarded_for req (Some (js "1.1.1.1"))))
      (ipManager st) = true.
Proof.
  intros st req.
  destruct (forwarded_for_decides st) as [Hip _].
  split; [reflexivity |].
  rewrite (Hip req (js "1.1.1.1")) by discriminate. reflexivity.
Defined.

(** ** Keys *)

Lemma js_or_default_nonempty o :
  ∃ c s, js_or (of_option o) default_key = JString (c :: s).
Proof.
  destruct o as [[| c s] |]; [by eexists _, _ | by exists c, s | by eexists _, _].
Qed.

(** X11. In every environment the expected admin key and the expected API
    key are non-empty strings, a variable set to the empty string counting
    as unset. So a request without the key header, or with an empty one, is
    answered 401 by every admin endpoint, and by the checkout and payment
    endpoints once past the gate; the state is as it was. *)
Theorem missing_key_rejected (env : Env) (req : Request) (st : ServerState) :
  (∃ c s, expectedAdminKey env = JString (c :: s))
  ∧ (∃ c s, expectedApiKey env = JString (c :: s))
  ∧ (ADMIN_KEY env = Some [] → expectedAdminKey env = default_key)
  ∧ (x_admin_key req = None ∨ x_admin_key req = Some [] →
     ∀ r, is_admin r = true →
          app env r req st = (respond 401 (ErrorBody "Invalid admin key"), st))
  ∧ (x_api_key req = None ∨ x_api_key req = Some [] →
     isIPAllowed (clientIP req) (ipManager st) = true →
     app env POST_webhook_checkout req st
     = (respond 401 (ErrorBody "Invalid API key"), st)
     ∧ app env POST_webhook_payment req st
       = (respond 401 (ErrorBody "Invalid API key"), st)).
Proof.
  split_and!.
  - apply js_or_default_nonempty.
  - apply js_or_default_nonempty.
  - unfold expectedAdminKey. by intros ->.
  - intros Hkey r Hr. apply admin_unauthorized; [done |].
    unfold authorized.
    destruct (js_or_default_nonempty (ADMIN_KEY env)) as (c & s & Hexp).
    unfold expectedAdminKey. rewrite Hexp.
    destruct Hkey as [-> | ->]; discriminate.
  - intros Hkey Hgate. simpl.
    unfold checkIPAccess, webhook_checkout, webhook_payment. rewrite Hgate.
    assert (strict_eq (of_option (x_api_key req)) (expectedApiKey env) = false)
      as ->; [| done].
    apply not_true_iff_false. rewrite api_key_strict_eq.
    destruct (js_or_default_nonempty (API_KEY env)) as (c & s & Hexp).
    unfold expectedApiKey. rewrite Hexp.
    destruct Hkey as [-> | ->]; discriminate.
Qed.

(** An instance of X11: a block request without the key header, in an
    environment whose admin key is set to the empty string. *)
Lemma missing_key_rejected_witness :
  let env := {| ADMIN_KEY := Some []; API_KEY := None;
                DISCORD_WEBHOOK_URL := None |} in
  let req := {| x_forwarded_for := None; x_real_ip := None;
                x_admin_key := None; x_api_key := None;
                connection_remoteAddress := None;
                socket_remoteAddress := None; req_ip := None;
                body := [("ip", JString (js "9.9.9.9"))] |} in
  app env POST_admin_block_ip req server_init
  = (respond 401 (ErrorBody "Invalid admin key"), server_init).
Proof.
  intros env req.
  destruct (missing_key_rejected env req server_init) as (_ & _ & _ & H & _).
  exact (H (or_introl eq_refl) POST_admin_block_ip eq_refl).
Defined.

(** X12. Only a request to an admin endpoint that presents the configured
    key changes the gate: over any run of the process in which no such
    request arrives, the gate stays as it was. *)
Theorem gate_changes_only_by_admin (env : Env) (ts : list Turn) (l : Loop) :
  Forall (λ t, match t with
               | Arrive r req => is_admin r = true → ¬ authorized env req
               | Settle _ _ => True
               end) ts →
  ipManager (server (run env ts l)) = ipManager (server l).
Proof.
  intros Hts. revert l. induction Hts as [| t ts Ht _ IH]; intros l; [done |].
  simpl. rewrite IH. destruct t as [r req | conn response]; simpl.
  - pose proof (app_gate env r req (server l)) as Happ.
    destruct (app env r req (server l)) as [o st]. simpl in *.
    destruct Happ as [-> | (Hr & Hauth & _)]; [done |].
    by destruct (Ht Hr).
  - repeat case_match; done.
Qed.

(** An instance of X12: a block request with a wrong key, then a checkout
    request. *)
Lemma gate_changes_only_by_admin_witness :
  let env := {| ADMIN_KEY := Some (js "k3y"); API_KEY := Some (js "k3y");
                DISCORD_WEBHOOK_URL := None |} in
  let req key := {| x_forwarded_for := None; x_real_ip := None;
                    x_admin_key := key; x_api_key := Some (js "k3y");
                    connection_remoteAddress := None;
                    socket_remoteAddress := None; req_ip := None;
                    body := [("ip", JString (js "9.9.9.9"));
                             ("transactionId", JString (js "TXN-12345678"));
                             ("customerName", JString (js "John"));
                             ("customerEmail", JString (js "j@example.com"))] |} in
  ipManager (server (run env [Arrive POST_admin_block_ip (req (Some (js "guess")));
                              Arrive POST_webhook_checkout (req None)]
                       loop_init))
  = ipManager_init.
Proof.
  intros env req.
  apply (gate_changes_only_by_admin env _ loop_init).
  repeat apply Forall_cons_2; try apply Forall_nil_2.
  - intros _. vm_compute. congruence.
  - discriminate.
Defined.

(** ** The generic webhook endpoint *)

(** X13. The generic webhook endpoint never answers that the webhook
    configuration is missing: with the built-in address as fallback the
    address it posts to is never empty. It forwards the body exactly when the
    body has a property, to that address, consulting neither the gate nor a
    key, and it leaves the state as it was. *)
Theorem generic_webhook_forwards (env : Env) (req : Request) (st : ServerState) :
  (app env POST_webhook req st).1
  ≠ respond 500 (ErrorBody "Webhook configuration missing")
  ∧ (app env POST_webhook req st).2 = st
  ∧ (body req = [] →
     (app env POST_webhook req st).1
     = respond 400 (ErrorBody "Request body is required"))
  ∧ (body req ≠ [] →
     ∃ resume,
       (app env POST_webhook req st).1
       = AwaitFetch (webhookUrl env) (ForwardedBody (body req)) resume
       ∧ truthy (webhookUrl env) = true
       ∧ status (resume FetchOk) = 200
       ∧ ∀ response, response ≠ FetchOk → status (resume response) = 500).
Proof.
  assert (Hurl : truthy (webhookUrl env) = true)
    by (unfold webhookUrl; by destruct (DISCORD_WEBHOOK_URL env) as [[| c s] |]).
  simpl. unfold webhook. rewrite Hurl. simpl.
  destruct (body req) as [| p b]; simpl.
  - split_and!; try done.
  - split_and!; try done. intros _. eexists. split_and!; try done.
    intros [| n |]; done.
Qed.

(** ** The CORS origin check *)

Lemma replace_trailing_slash_snoc v :
  replace_trailing_slash (v ++ js "/") = v.
Proof.
  unfold replace_trailing_slash. rewrite rev_app_distr. simpl.
  apply rev_involutive.
Qed.

Lemma replace_trailing_slash_id v :
  last v ≠ Some 0x2F%N → replace_trailing_slash v = v.
Proof.
  intros Hlast. unfold replace_trailing_slash.
  destruct (rev v) as [| c r] eqn:Hrev; [done |].
  destruct (c =? 0x2F)%N eqn:Hc; [| done].
  apply N.eqb_eq in Hc. subst c. exfalso. apply Hlast.
  apply (f_equal (@rev N)) in Hrev. rewrite rev_involutive in Hrev.
  rewrite Hrev. simpl. apply last_snoc.
Qed.

(** X14. The front-end address may be configured with or without a final
    slash, and the browser may send the origin with or without it: all four
    combinations are allowed. *)
Theorem cors_slash_insensitive (v : jsstring) :
  last v ≠ Some 0x2F%N →
  cors_origin (Some v) (Some v) = CorsAllowed
  ∧ cors_origin (Some v) (Some (v ++ js "/")) = CorsAllowed
  ∧ cors_origin (Some (v ++ js "/")) (Some v) = CorsAllowed
  ∧ cors_origin (Some (v ++ js "/")) (Some (v ++ js "/")) = CorsAllowed.
Proof.
  intros Hlast. unfold cors_origin, allowedOrigins. simpl option_map.
  rewrite replace_trailing_slash_snoc, replace_trailing_slash_id by done.
  cbn [plus_slash of_option].
  split_and!; destruct (negb _); try done;
    rewrite bool_decide_eq_true_2; try done;
    rewrite !elem_of_cons; auto.
Qed.

(** An instance of X14. *)
Lemma cors_slash_insensitive_witness :
  cors_origin (Some (js "https://shop.example/")) (Some (js "https://shop.example"))
  = CorsAllowed.
Proof.
  destruct (cors_slash_insensitive (js "https://shop.example"))
    as (_ & _ & H & _); [vm_compute; congruence | exact H].
Defined.

(** X15. Which origins the server accepts: a request without an origin (or
    with an empty one); the four built-in origins; the configured front-end
    address, as it is, without its final slash, and with one final slash.
    When no front-end address is configured, the third entry of the list is
    the text undefined followed by a slash, and that origin is accepted.
    Every other origin is refused with the CORS error. *)
Theorem cors_origin_accepts (FRONTEND_URL origin : option jsstring) :
  (cors_origin FRONTEND_URL origin = CorsAllowed
   ∨ cors_origin FRONTEND_URL origin = CorsError "Not allowed by CORS")
  ∧ (cors_origin FRONTEND_URL origin = CorsAllowed
     ↔ origin = None ∨ origin = Some []
       ∨ ∃ o, origin = Some o
              ∧ (o ∈ [js "https://githubstore.netlify.app";
                      js "https://githubstore.netlify.app/";
                      js "http://localhost:3000"; js "http://localhost:8080"]
                 ∨ match FRONTEND_URL with
                   | Some u =>
                       o = u ∨ o = replace_trailing_slash u
                       ∨ o = replace_trailing_slash u ++ js "/"
                   | None => o = js "undefined/"
                   end)).
Proof.
  unfold cors_origin. split.
  - repeat case_match; auto.
  - destruct origin as [o |]; [| simpl; split; auto].
    destruct (decide (o = [])) as [-> | Hne]; [simpl; split; auto |].
    assert (truthy (of_option (Some o)) = true) as ->
      by (destruct o; done).
    cbn [negb of_option]. unfold allowedOrigins.
    destruct (bool_decide _) eqn:Hin.
    + apply bool_decide_eq_true in Hin. split; [intros _ | done].
      right. right. exists o. split; [done |].
      rewrite !elem_of_cons in Hin. rewrite !elem_of_cons.
      destruct FRONTEND_URL as [u |]; cbn [of_option option_map] in Hin;
        destruct Hin as [H | [H | [H | [H | [H | [H | [H | H]]]]]]];
        try (by apply elem_of_nil in H); try discriminate H;
        match type of H with
        | JString _ = JString ?x => assert (o = x) as -> by congruence
        end; auto 10.
    + apply bool_decide_eq_false in Hin. split; [done |].
      intros [H | [H | (o' & [= <-] & H)]]; [done | congruence |].
      exfalso. apply Hin.
      rewrite !elem_of_cons in H. rewrite !elem_of_cons.
      destruct H as [[H | [H | [H | [H | H]]]] | H];
        try (by apply elem_of_nil in H); try (rewrite H; auto 10).
      destruct FRONTEND_URL as [u |]; cbn [of_option option_map plus_slash].
      * destruct H as [H | [H | H]]; rewrite H; auto 10.
      * rewrite H. auto 10.
Qed.

(** ** Regular expressions *)

Lemma nullable_lang r : nullable r = true ↔ lang r [].
Proof.
  induction r as [| | lo hi | r1 IH1 r2 IH2 | r1 IH1 r2 IH2]; simpl.
  - done.
  - done.
  - split; [done | intros (c & ? & _); done].
  - rewrite andb_true_iff, IH1, IH2. split.
    + intros [? ?]. by exists [], [].
    + intros (s1 & s2 & Heq & ? & ?). symmetry in Heq.
      apply app_eq_nil in Heq as [-> ->]. done.
  - rewrite orb_true_iff, IH1, IH2. done.
Qed.

Lemma deriv_lang c r s : lang (deriv c r) s ↔ lang r (c :: s).
Proof.
  revert s.
  induction r as [| | lo hi | r1 IH1 r2 IH2 | r1 IH1 r2 IH2]; intros s; simpl.
  - done.
  - done.
  - destruct ((lo <=? c)%N && (c <=? hi)%N) eqn:Hc; simpl.
    + N_tests Hc. split.
      * intros ->. by exists c.
      * intros (d & [= -> ->] & _). done.
    + split; [done |]. intros (d & [= -> ->] & Hd).
      apply not_true_iff_false in Hc. apply Hc.
      apply andb_true_iff. split; apply N.leb_le; lia.
  - assert (Hcat : (∃ s1 s2, s = s1 ++ s2 ∧ lang (deriv c r1) s1 ∧ lang r2 s2)
                   ↔ ∃ s1 s2, c :: s = s1 ++ s2 ∧ s1 ≠ []
                              ∧ lang r1 s1 ∧ lang r2 s2).
    { split.
      - intros (s1 & s2 & -> & H1%IH1 & H2). by exists (c :: s1), s2.
      - intros (s1 & s2 & Heq & Hne & H1 & H2).
        destruct s1 as [| d s1]; [done |]. injection Heq as <- ->.
        exists s1, s2. by rewrite IH1. }
    destruct (nullable r1) eqn:Hn; simpl; rewrite ?Hcat, ?IH2.
    + apply nullable_lang in Hn. split.
      * intros [(s1 & s2 & Heq & _ & H1 & H2) | H2]; [by exists s1, s2 |].
        by exists [], (c :: s).
      * intros (s1 & s2 & Heq & H1 & H2).
        destruct s1 as [| d s1]; [right; by rewrite Heq |].
        left. by exists (d :: s1), s2.
    + split.
      * intros (s1 & s2 & Heq & _ & H1 & H2). by exists s1, s2.
      * intros (s1 & s2 & Heq & H1 & H2). exists s1, s2. split_and!; try done.
        intros ->. apply nullable_lang in H1. congruence.
  - by rewrite IH1, IH2.
Qed.

(** The matcher decides the language. *)
Lemma re_test_lang r s : re_test r s = true ↔ lang r s.
Proof.
  unfold re_test. revert r. induction s as [| c s IH]; intros r; simpl.
  - apply nullable_lang.
  - rewrite IH. apply deriv_lang.
Qed.

Lemma octet_lang s : lang octet_re s ↔ is_octet s.
Proof.
  unfold octet_re, Chr, Opt, is_octet, is_digit. simpl. split.
  - intros H.
    repeat match goal with
           | H : _ ∨ _ |- _ => destruct H
           | H : ∃ _, _ |- _ => destruct H
           | H : _ ∧ _ |- _ => destruct H
           end; subst; simpl;
      (split_and!; [lia | lia | repeat constructor; lia
                   | unfold decimal; simpl; lia]).
  - intros ([Hmin Hmax] & Hdigits & Hval).
    destruct s as [| a [| b [| c [| d s]]]]; simpl in Hmin, Hmax; try lia.
    + apply Forall_cons in Hdigits as [Ha _].
      right. right. exists [], [a]. split_and!; [done | by right |].
      exists [a], []. split_and!; [done | by exists a | by right].
    + apply Forall_cons in Hdigits as [Ha Hdigits].
      apply Forall_cons in Hdigits as [Hb _].
      right. right. exists [], [a; b]. split_and!; [done | by right |].
      exists [a], [b]. split_and!; [done | by exists a | left; by exists b].
    + apply Forall_cons in Hdigits as [Ha Hdigits].
      apply Forall_cons in Hdigits as [Hb Hdigits].
      apply Forall_cons in Hdigits as [Hc _].
      unfold decimal in Hval. simpl in Hval.
      destruct (decide (a ≤ 0x31)%N) as [Ha1 | Ha2].
      * right. right. exists [a], [b; c].
        split_and!; [done | left; exists a; split; [done | lia] |].
        exists [b], [c]. split_and!; [done | by exists b | left; by exists c].
      * assert (a = 0x32%N) as -> by lia.
        destruct (decide (b ≤ 0x34)%N) as [Hb1 | Hb2].
        -- right. left. exists [0x32%N], [b; c].
           split_and!; [done | exists 0x32%N; split; [done | lia] |].
           exists [b], [c].
           split_and!; [done | exists b; split; [done | lia] | by exists c].
        -- assert (b = 0x35%N) as -> by lia.
           left. exists [0x32%N], [0x35%N; c].
           split_and!; [done | exists 0x32%N; split; [done | lia] |].
           exists [0x35%N], [c].
           split_and!; [done | exists 0x35%N; split; [done | lia]
                       | exists c; split; [done | lia]].
Qed.

Lemma quad_lang (o : regex) s :
  lang (Cat (Times 3 (Cat o (Chr 0x2E))) o) s
  ↔ ∃ a b c d,
      s = a ++ js "." ++ b ++ js "." ++ c ++ js "." ++ d
      ∧ lang o a ∧ lang o b ∧ lang o c ∧ lang o d.
Proof.
  change (js ".") with [0x2E%N]. unfold Chr. cbn [Times lang]. split.
  - intros (s1 & d & -> & (s2 & s3 & -> & (a & p1 & -> & Ha & c1 & -> & H1)
              & (s4 & s5 & -> & (b & p2 & -> & Hb & c2 & -> & H2)
                 & (s6 & s7 & -> & (c & p3 & -> & Hc & c3 & -> & H3) & ->)))
              & Hd).
    assert (c1 = 0x2E%N) as -> by lia. assert (c2 = 0x2E%N) as -> by lia.
    assert (c3 = 0x2E%N) as -> by lia.
    exists a, b, c, d. split_and!; try done.
    by rewrite app_nil_r, <- !app_assoc.
  - intros (a & b & c & d & -> & Ha & Hb & Hc & Hd).
    exists (a ++ [0x2E%N] ++ b ++ [0x2E%N] ++ c ++ [0x2E%N]), d.
    split_and!; [by rewrite <- !app_assoc | | done].
    exists (a ++ [0x2E%N]), (b ++ [0x2E%N] ++ c ++ [0x2E%N]).
    split_and!; [by rewrite <- !app_assoc | |].
    { exists a, [0x2E%N]. split_and!; [done | done |].
      exists 0x2E%N. split; [done | lia]. }
    exists (b ++ [0x2E%N]), (c ++ [0x2E%N]).
    split_and!; [by rewrite <- !app_assoc | |].
    { exists b, [0x2E%N]. split_and!; [done | done |].
      exists 0x2E%N. split; [done | lia]. }
    exists (c ++ [0x2E%N]), []. split_and!; [by rewrite app_nil_r | | done].
    exists c, [0x2E%N]. split_and!; [done | done |].
    exists 0x2E%N. split; [done | lia].
Qed.

Lemma octet_chars s : is_octet s → Forall is_digit s.
Proof. by intros (_ & ? & _). Qed.

Lemma ipRegex_dotted_quads_aux s :
  (re_test ipRegex s = true ↔ is_dotted_quad s)
  ∧ (is_dotted_quad s → 7 ≤ length s ≤ 15).
Proof.
  split.
  - rewrite re_test_lang. unfold ipRegex. rewrite quad_lang.
    unfold is_dotted_quad. by setoid_rewrite octet_lang.
  - intros (a & b & c & d & -> & Ha & Hb & Hc & Hd).
    destruct Ha as (? & _), Hb as (? & _), Hc as (? & _), Hd as (? & _).
    rewrite !length_app. simpl. lia.
Qed.

(** X16. The address pattern of the interactive tool matches exactly the
    dotted quads: four groups of one to three decimal digits, each writing a
    number up to 255 (leading zeros allowed), separated by dots. A string
    with any other character, a colon for instance, does not match. *)
Theorem ipRegex_dotted_quads (s : jsstring) :
  (re_test ipRegex s = true ↔ is_dotted_quad s)
  ∧ (re_test ipRegex s = true →
     Forall (λ c, is_digit c ∨ c = 0x2E%N) s ∧ 7 ≤ length s ≤ 15).
Proof.
  assert (Hiff : re_test ipRegex s = true ↔ is_dotted_quad s).
  { rewrite re_test_lang. unfold ipRegex. rewrite quad_lang.
    unfold is_dotted_quad. by setoid_rewrite octet_lang. }
  split; [exact Hiff |]. rewrite Hiff.
  intros (a & b & c & d & -> & Ha & Hb & Hc & Hd).
  change (js ".") with [0x2E%N]. split.
  - repeat (apply Forall_app; split);
      try (eapply Forall_impl; [by apply octet_chars |]; simpl; by left);
      repeat constructor; by right.
  - destruct Ha as (? & _), Hb as (? & _), Hc as (? & _), Hd as (? & _).
    rewrite !length_app. simpl. lia.
Qed.

(** An instance of X16: an address with leading zeros matches, so does
    255.255.255.255; 256.1.1.1 and an IPv4-mapped address do not. *)
Lemma ipRegex_dotted_quads_witness :
  re_test ipRegex (js "010.0.00.255") = true
  ∧ re_test ipRegex (js "256.1.1.1") = false
  ∧ re_test ipRegex (js "::ffff:127.0.0.1") = false.
Proof.
  split_and!; [reflexivity | reflexivity |].
  apply not_true_iff_false. intros H.
  destruct (ipRegex_dotted_quads (js "::ffff:127.0.0.1")) as [_ Hchars].
  destruct (Hchars H) as [_ Hlen]. vm_compute in Hlen. lia.
Defined.

(** ** The interactive admin tool *)

(** X17. The interactive tool sends a block or an allow request exactly
    when the trimmed answer is a dotted quad, and then for that trimmed
    string; a remove request it sends for every answer that is not blank. So
    an address that is not a dotted quad can be taken off the lists through
    the tool but not put on them. *)
Theorem menu_requests (answer : jsstring) :
  let ip := trim answer in
  (is_dotted_quad ip →
   menu_blockIP answer = Some (POST_admin_block_ip, [("ip", JString ip)])
   ∧ menu_allowIP answer = Some (POST_admin_allow_ip, [("ip", JString ip)]))
  ∧ (¬ is_dotted_quad ip →
     menu_blockIP answer = None ∧ menu_allowIP answer = None)
  ∧ (ip ≠ [] →
     menu_removeIP answer = Some (POST_admin_remove_ip, [("ip", JString ip)]))
  ∧ (ip = [] → menu_removeIP answer = None).
Proof.
  simpl. unfold menu_blockIP, menu_allowIP, menu_removeIP.
  destruct (ipRegex_dotted_quads_aux (trim answer)) as [Hiff Hlen].
  destruct (trim answer) as [| c ip] eqn:Htrim.
  - split_and!; try done. intros Hq. apply Hlen in Hq. simpl in Hq. lia.
  - simpl truthy. cbn [negb]. split_and!; try done.
    + intros Hq%Hiff. by rewrite Hq.
    + intros Hq.
      assert (Hre : re_test ipRegex (c :: ip) = false)
        by (apply not_true_iff_false; by intros Hre%Hiff).
      by rewrite Hre.
Qed.

(** An instance of X17: an IPv4-mapped address typed at the prompts. *)
Lemma menu_requests_witness :
  menu_blockIP (js " ::ffff:127.0.0.1 ") = None
  ∧ menu_removeIP (js " ::ffff:127.0.0.1 ")
    = Some (POST_admin_remove_ip, [("ip", JString (js "::ffff:127.0.0.1"))]).
Proof.
  destruct (menu_requests (js " ::ffff:127.0.0.1 ")) as (_ & Hnot & Hrm & _).
  split.
  - apply Hnot. intros (a & b & c & d & Heq & (Ha & _) & (Hb & _) & (Hc & _)
                          & (Hd & _)).
    apply (f_equal length) in Heq. rewrite !length_app in Heq.
    assert (Hlen : length (trim (js " ::ffff:127.0.0.1 ")) = 16)
      by (vm_compute; reflexivity).
    rewrite Hlen in Heq. simpl in Heq. lia.
  - apply Hrm. vm_compute. congruence.
Defined.

(** X18. The verdict the interactive tool computes from the status agrees
    with the gate: for every address it is what [isIPAllowed] answers for
    that address on the gate the status was taken from. *)
Theorem testIP_agrees (g : IpManager) (ip : jsstring) :
  testIP (getStatus g) ip = isIPAllowed (JString ip) g.
Proof.
  unfold testIP, isIPAllowed, JSSet.has, JSSet.size. simpl.
  destruct (whitelistMode g); done.
Qed.

(** ** Addresses that cannot be written into a message *)

(** X23. The block, allow and remove endpoints update the sets before
    the address is first written into a message. So an authorized request
    whose address is truthy but cannot be converted to a string (a JSON
    object with a property named toString) changes the gate, and is then
    answered 500 by the error handler of the application instead of the
    confirmation; the set-mode endpoint never is. *)
Theorem unprintable_address_changes_gate
    (env : Env) (r : Route) (req : Request) (st : ServerState) (op : GateOp) :
  authorized env req → admin_op r req = Some op →
  interpolates (op_value op) = false →
  app env r req st
  = (respond 500 (ErrorBody "Internal server error"),
     with_gate st (gate_op (ipManager st) op))
  ∧ r ≠ POST_admin_set_mode.
Proof.
  intros Hauth%authorized_strict_eq Hop Hint.
  destruct r; try discriminate Hop; simpl in *;
    unfold admin_block_ip, admin_allow_ip, admin_remove_ip, logs;
    try (rewrite Hauth; simpl;
         destruct (truthy (prop "ip" (body req))); [| done];
         injection Hop as <-; simpl in Hint; by rewrite Hint).
  destruct (bool_decide _) eqn:Hlit; [| done]. injection Hop as <-.
  apply bool_decide_eq_true in Hlit. simpl in Hint.
  destruct Hlit as [Hm | Hm]; rewrite Hm in Hint; discriminate Hint.
Qed.

(** An instance of X23: a block request whose address is an object with a
    property named toString, on a fresh server. *)
Lemma unprintable_address_changes_gate_witness :
  let env := {| ADMIN_KEY := Some (js "k3y"); API_KEY := None;
                DISCORD_WEBHOOK_URL := None |} in
  let ip := JObject 1 false JUndefined JUndefined in
  let req := {| x_forwarded_for := None; x_real_ip := None;
                x_admin_key := Some (js "k3y"); x_api_key := None;
                connection_remoteAddress := None;
                socket_remoteAddress := None; req_ip := None;
                body := [("ip", ip)] |} in
  app env POST_admin_block_ip req server_init
  = (respond 500 (ErrorBody "Internal server error"),
     with_gate server_init (blockIP ip ipManager_init)).
Proof.
  intros env ip req.
  destruct (unprintable_address_changes_gate env POST_admin_block_ip req
              server_init (Block ip) eq_refl eq_refl eq_refl) as [H _].
  exact H.
Defined.

(** ** From a tool to the server *)

Lemma visible_not_whitespace c :
  visible c = true → http_whitespace c = false.
Proof.
  unfold visible, http_whitespace. intros [H1 H2]%andb_prop.
  apply N.leb_le in H1, H2.
  repeat apply orb_false_intro; apply N.eqb_neq; lia.
Qed.

Lemma blank_whitespace c : http_whitespace c = false → is_blank c = false.
Proof.
  unfold http_whitespace, is_blank. intros H.
  repeat (apply orb_false_elim in H as [H ?]).
  by apply orb_false_intro.
Qed.

Lemma strip_start_starts s : starts_blank (strip_start s) = false.
Proof.
  induction s as [| c t IH]; simpl; [done |].
  destruct (http_whitespace c) eqn:Hc; [done |].
  simpl. by apply blank_whitespace.
Qed.

Lemma strip_start_suffix s : ∃ pre, s = pre ++ strip_start s.
Proof.
  induction s as [| c t [pre IH]]; simpl; [by exists [] |].
  destruct (http_whitespace c); [| by exists []].
  exists (c :: pre). simpl. by rewrite <- IH.
Qed.

Lemma strip_start_visible s : forallb visible s = true → strip_start s = s.
Proof.
  destruct s as [| c t]; simpl; [done |].
  intros [Hc _]%andb_prop. by rewrite (visible_not_whitespace c Hc).
Qed.

(** [stripping_wire] leaves a value of visible characters as it is. *)
Lemma stripping_wire_transparent : header_transparent stripping_wire.
Proof.
  intros s Hs _. unfold stripping_wire. cbv zeta.
  rewrite (strip_start_visible s Hs).
  assert (Hrev : forallb visible (rev s) = true).
  { apply forallb_forall. intros c Hc%in_rev. revert c Hc.
    by apply forallb_forall. }
  rewrite (strip_start_visible _ Hrev), rev_involutive.
  match goal with
  | |- (if ?b then _ else _) = _ => assert (b = true) as ->; [| done]
  end.
  apply forallb_forall. intros c Hc.
  pose proof (proj1 (forallb_forall _ _) Hs c Hc) as Hv.
  unfold visible in Hv. apply andb_prop in Hv as [H1 H2].
  apply N.leb_le in H1, H2.
  apply orb_true_iff. left. apply orb_true_iff. right.
  apply andb_true_iff. split; apply N.leb_le; lia.
Qed.

(** What [stripping_wire] delivers neither starts nor ends with a blank. *)
Lemma stripping_wire_stripped : header_stripped stripping_wire.
Proof.
  intros s k. unfold stripping_wire. cbv zeta.
  set (w := strip_start s). set (u := strip_start (rev w)).
  case_match; [| done]. intros [= <-].
  unfold blank_ended. rewrite rev_involutive.
  apply orb_false_intro; [| apply strip_start_starts].
  destruct (strip_start_suffix (rev w)) as [pre Hpre]. fold u in Hpre.
  destruct u as [| c u'] eqn:Hu; [done |].
  assert (Hw : w = rev (c :: u') ++ rev pre)
    by (rewrite <- rev_app_distr, <- Hpre, rev_involutive; done).
  pose proof (strip_start_starts s) as Hstart. fold w in Hstart.
  rewrite Hw in Hstart.
  destruct (rev (c :: u')) as [| d v] eqn:Hrev; [| exact Hstart].
  apply (f_equal (@length N)) in Hrev. rewrite length_rev in Hrev.
  discriminate Hrev.
Qed.

(** ** The command-line admin tool *)

Lemma makeRequest_Some wire key via data req :
  makeRequest wire key via data = Some req →
  ∃ k, wire (string_value key) = Some k
       ∧ x_admin_key req = Some k ∧ body req = data.
Proof.
  unfold makeRequest. destruct (wire (string_value key)) as [k |]; [| done].
  intros [= <-]. by exists k.
Qed.

Lemma makeRequest_None wire key via data :
  wire (string_value key) = None → makeRequest wire key via data = None.
Proof. unfold makeRequest. by intros ->. Qed.

(** An authorized admin request that asks for a gate operation on a value
    that can be written into a message is answered with a success status
    after the gate has made the operation. *)
Lemma admin_authorized_op env r req st op :
  authorized env req → admin_op r req = Some op →
  interpolates (op_value op) = true →
  ∃ o, app env r req st = (o, with_gate st (gate_op (ipManager st) op))
       ∧ response_ok o = true.
Proof.
  intros Hauth%authorized_strict_eq Hop Hint.
  destruct r; try discriminate Hop; simpl in *;
    unfold admin_block_ip, admin_allow_ip, admin_remove_ip, admin_set_mode,
      logs;
    rewrite Hauth; simpl.
  1-3: destruct (truthy (prop "ip" (body req))); [| done];
       injection Hop as <-; simpl in Hint; rewrite Hint;
       eexists; split; [reflexivity | done].
  destruct (bool_decide _) eqn:Hlit; [| done]. injection Hop as <-.
  apply bool_decide_eq_true in Hlit as Hm.
  assert (truthy (prop "mode" (body req)) = true) as ->
    by (destruct Hm as [-> | ->]; reflexivity).
  rewrite (proj2 (is_mode_literal_spec _) Hm). simpl.
  eexists. split; [reflexivity | done].
Qed.

(** What the command line makes the tool send. *)
Lemma cli_action_send command option r data :
  cli_action command option = CliSend r data →
  r = GET_admin_ip_status ∧ data = []
  ∨ (r = POST_admin_block_ip ∨ r = POST_admin_allow_ip
     ∨ r = POST_admin_remove_ip)
    ∧ data = [("ip", of_option option)] ∧ truthy (of_option option) = true
  ∨ r = POST_admin_set_mode ∧ data = [("mode", of_option option)]
    ∧ (of_option option = JString (js "whitelist")
       ∨ of_option option = JString (js "blacklist")).
Proof.
  unfold cli_action. intros H.
  repeat case_match; try discriminate H; injection H as <- <-; auto.
  - right. left. split_and!; [auto | done |].
    by destruct (truthy (of_option option)).
  - right. left. split_and!; [auto | done |].
    by destruct (truthy (of_option option)).
  - right. left. split_and!; [auto | done |].
    by destruct (truthy (of_option option)).
  - right. right. split_and!; [done | done |].
    apply is_mode_literal_spec.
    match goal with
    | H : _ || negb (is_mode_literal _) = false |- _ =>
        apply orb_false_elim in H as [_ H]; by apply negb_false_iff in H
    end.
Qed.

Lemma of_option_interpolates o : interpolates (of_option o) = true.
Proof. by destruct o. Qed.

(** [showStatus] exits with code 0 when the key arrives as the one the
    server expects and every listed address can be printed. *)
Lemma cli_showStatus_run wire env key via st :
  cli_showStatus wire env key via st
  = match wire (string_value key) with
    | Some k =>
        if bool_decide (JString k = expectedAdminKey env)
        then (if printable (ipManager st) then 0 else 1, st)
        else (1, st)
    | None => (1, st)
    end.
Proof.
  unfold cli_showStatus, makeRequest.
  destruct (wire (string_value key)) as [k |]; [| done].
  simpl. unfold admin_ip_status, strict_eq. simpl.
  destruct (bool_decide (JString k = expectedAdminKey env)); simpl; [| done].
  unfold printable, JSSet.to_array.
  by destruct (forallb _ _).
Qed.

(** X19. The command-line tool against a reachable server. Status and
    help change nothing; block, allow and remove with a non-empty address
    and mode with one of the two literals contact the server; every other
    command line exits with code 1 without contacting it. A command that
    contacts the server exits with code 1 and leaves the server as it was
    when [fetch] refuses the key of the tool as a header value or when the
    key, as it arrives, is not the one the server expects. Otherwise the
    gate makes exactly the operation asked for, on the value given, and the
    tool ends by printing the status: it exits with code 0 when every
    address then on the lists can be printed, and with code 1 when one
    cannot. *)
Theorem cli_main_effect
    (wire : Wire) (env : Env) (key : jsval) (via : Request)
    (command option : option jsstring) (st : ServerState) :
  cli_main wire env key via command option st
  = match cli_action command option with
    | CliExit1 => (1, st)
    | CliHelp => (0, st)
    | CliSend r _ =>
        match wire (string_value key) with
        | Some k =>
            if bool_decide (JString k = expectedAdminKey env)
            then
              let g :=
                match r with
                | POST_admin_block_ip =>
                    blockIP (of_option option) (ipManager st)
                | POST_admin_allow_ip =>
                    allowIP (of_option option) (ipManager st)
                | POST_admin_remove_ip =>
                    removeIP (of_option option) (ipManager st)
                | POST_admin_set_mode =>
                    setMode (of_option option) (ipManager st)
                | _ => ipManager st
                end in
              (if printable g then 0 else 1, with_gate st g)
            else (1, st)
        | None => (1, st)
        end
    end
  ∧ (cli_action command option = CliExit1
     ↔ ¬ (command = Some (js "status")
          ∨ command ∈ [Some (js "help"); Some (js "--help"); Some (js "-h")]
          ∨ command ∈ [Some (js "block"); Some (js "allow");
                       Some (js "remove")]
            ∧ (∃ c s, option = Some (c :: s))
          ∨ command = Some (js "mode")
            ∧ (option = Some (js "whitelist")
               ∨ option = Some (js "blacklist")))).
Proof.
  split.
  - unfold cli_main.
    destruct (cli_action command option) as [r data | |] eqn:Hact;
      [| done | done].
    assert (Hst : with_gate st (ipManager st) = st) by by destruct st.
    destruct (wire (string_value key)) as [k |] eqn:Hwire; cycle 1.
    { rewrite (makeRequest_None _ _ _ _ Hwire).
      destruct r; try done.
      by rewrite cli_showStatus_run, Hwire. }
    destruct (cli_action_send _ _ _ _ Hact)
      as [[-> ->] | [(Hr & -> & Hopt) | (-> & -> & Hm)]].
    + rewrite cli_showStatus_run, Hwire. cbv zeta. by rewrite Hst.
    + assert (Hreq : makeRequest wire key via [("ip", of_option option)]
                     = Some {| x_forwarded_for := x_forwarded_for via;
                               x_real_ip := x_real_ip via;
                               x_admin_key := Some k; x_api_key := None;
                               connection_remoteAddress :=
                                 connection_remoteAddress via;
                               socket_remoteAddress := socket_remoteAddress via;
                               req_ip := req_ip via;
                               body := [("ip", of_option option)] |})
        by (unfold makeRequest; by rewrite Hwire).
      set (req := {| x_admin_key := Some k |}) in Hreq.
      assert (Hcases :
        match r with
        | POST_admin_block_ip | POST_admin_allow_ip | POST_admin_remove_ip =>
            match makeRequest wire key via [("ip", of_option option)] with
            | Some req =>
                let '(o, st') := app env r req st in
                if response_ok o then cli_showStatus wire env key via st'
                else (1, st')
            | None => (1, st)
            end
        | _ => (0, st)
        end
        = if bool_decide (JString k = expectedAdminKey env)
          then
            let g := match r with
                     | POST_admin_block_ip =>
                         blockIP (of_option option) (ipManager st)
                     | POST_admin_allow_ip =>
                         allowIP (of_option option) (ipManager st)
                     | POST_admin_remove_ip =>
                         removeIP (of_option option) (ipManager st)
                     | _ => ipManager st
                     end in
            (if printable g then 0 else 1, with_gate st g)
          else (1, st)).
      { rewrite Hreq.
        destruct (bool_decide (JString k = expectedAdminKey env)) eqn:Hkey.
        - apply bool_decide_eq_true in Hkey.
          assert (Hauth : authorized env req) by exact Hkey.
          assert (Hop : ∃ op, admin_op r req = Some op
                              ∧ op_value op = of_option option
                              ∧ gate_op (ipManager st) op
                                = match r with
                                  | POST_admin_block_ip =>
                                      blockIP (of_option option) (ipManager st)
                                  | POST_admin_allow_ip =>
                                      allowIP (of_option option) (ipManager st)
                                  | POST_admin_remove_ip =>
                                      removeIP (of_option option) (ipManager st)
                                  | _ => ipManager st
                                  end).
          { destruct Hr as [-> | [-> | ->]]; simpl; rewrite Hopt;
              eexists; split_and!; reflexivity. }
          destruct Hop as (op & Hop & Hval & Hgate).
          destruct (admin_authorized_op env r req st op Hauth Hop)
            as (o & Happ & Hok).
          { rewrite Hval. apply of_option_interpolates. }
          rewrite Hgate in Happ.
          destruct Hr as [-> | [-> | ->]];
            (destruct (app env _ req st) as [o' st'];
             injection Happ as -> ->; rewrite Hok;
             rewrite cli_showStatus_run, Hwire;
             rewrite (bool_decide_eq_true_2 _ Hkey); done).
        - apply bool_decide_eq_false in Hkey.
          assert (Hun : ¬ authorized env req) by exact Hkey.
          destruct Hr as [-> | [-> | ->]];
            match goal with
            | |- context [app env ?r req st] =>
                by rewrite (admin_unauthorized env r req st eq_refl Hun)
            end. }
      destruct Hr as [-> | [-> | ->]]; exact Hcases.
    + unfold makeRequest. rewrite Hwire.
      set (req := {| x_admin_key := Some k |}).
      destruct (bool_decide (JString k = expectedAdminKey env)) eqn:Hkey.
      * apply bool_decide_eq_true in Hkey.
        assert (Hauth : authorized env req) by exact Hkey.
        assert (Hop : admin_op POST_admin_set_mode req
                      = Some (SetMode (of_option option)))
          by (simpl; by rewrite (bool_decide_eq_true_2 _ Hm)).
        destruct (admin_authorized_op env _ req st _ Hauth Hop)
          as (o & Happ & Hok).
        { apply of_option_interpolates. }
        destruct (app env _ req st) as [o' st'].
        injection Happ as -> ->. rewrite Hok.
        rewrite cli_showStatus_run, Hwire.
        by rewrite (bool_decide_eq_true_2 _ Hkey).
      * apply bool_decide_eq_false in Hkey.
        assert (Hun : ¬ authorized env req) by exact Hkey.
        by rewrite (admin_unauthorized env POST_admin_set_mode req st
                      eq_refl Hun).
  - split.
    + intros Hexit [-> | [Hhelp | [[Hcmd (c & s & ->)] | [-> Hm]]]].
      * discriminate Hexit.
      * rewrite !elem_of_cons in Hhelp.
        destruct Hhelp as [-> | [-> | [-> | Hnil]]];
          [discriminate Hexit .. | by apply elem_of_nil in Hnil].
      * rewrite !elem_of_cons in Hcmd.
        destruct Hcmd as [-> | [-> | [-> | Hnil]]];
          [discriminate Hexit .. | by apply elem_of_nil in Hnil].
      * destruct Hm as [-> | ->]; discriminate Hexit.
    + intros Hn. unfold cli_action.
      assert (Hcmd : ∀ w, strict_eq (of_option command) (JString w) = true →
                          command = Some w).
      { intros w Hw. apply bool_decide_eq_true in Hw.
        destruct command; simpl in Hw; congruence. }
      assert (Hopt : truthy (of_option option) = true →
                     ∃ c s, option = Some (c :: s)).
      { destruct option as [[| c s] |]; try done. eauto. }
      repeat case_match; try done; exfalso; apply Hn;
        repeat match goal with
               | H : strict_eq _ _ = true |- _ => apply Hcmd in H; subst
               | H : negb _ = false |- _ => apply negb_false_iff in H
               | H : _ || _ = false |- _ =>
                   apply orb_false_elim in H as [? ?]
               end;
        first [ by left
              | right; right; left; split; [| by apply Hopt];
                rewrite !elem_of_cons; by auto
              | right; right; right; split; [done |];
                match goal with
                | H : is_mode_literal _ = true |- _ =>
                    apply is_mode_literal_spec in H;
                    destruct option; simpl in H;
                    (destruct H as [H | H]; [left | right]; congruence)
                end
              | idtac ].
      right. left.
      match goal with
      | H : bool_decide _ = true |- _ => apply bool_decide_eq_true in H
      end.
      rewrite !elem_of_cons in *.
      destruct command as [w |]; simpl in *;
        repeat match goal with
               | H : _ ∨ _ |- _ => destruct H as [H | H]
               | H : _ ∈ [] |- _ => by apply elem_of_nil in H
               end; try discriminate;
        match goal with H : JString _ = JString _ |- _ => injection H as -> end;
        auto.
Qed.

(** Instances of X19 over [stripping_wire]: block 9.9.9.9 on a fresh
    server; a mode that is not one of the two literals; and a key with a
    leading blank, configured alike for the tool and for the server. *)
Lemma cli_main_effect_witness :
  let env k := {| ADMIN_KEY := Some (js k); API_KEY := None;
                  DISCORD_WEBHOOK_URL := None |} in
  let via := mkRequest None None None None (Some (js "127.0.0.1"))
               (Some (js "127.0.0.1")) (Some (js "127.0.0.1")) [] in
  cli_main stripping_wire (env "k3y") (JString (js "k3y")) via
    (Some (js "block")) (Some (js "9.9.9.9")) server_init
  = (0, with_gate server_init
          (blockIP (JString (js "9.9.9.9")) ipManager_init))
  ∧ cli_main stripping_wire (env "k3y") (JString (js "k3y")) via
      (Some (js "mode")) (Some (js "Whitelist")) server_init
    = (1, server_init)
  ∧ cli_main stripping_wire (env " k3y") (JString (js " k3y")) via
      (Some (js "block")) (Some (js "9.9.9.9")) server_init
    = (1, server_init).
Proof.
  intros env via. split_and!.
  - destruct (cli_main_effect stripping_wire (env "k3y") (JString (js "k3y"))
                via (Some (js "block")) (Some (js "9.9.9.9")) server_init)
      as (H & _).
    exact H.
  - destruct (cli_main_effect stripping_wire (env "k3y") (JString (js "k3y"))
                via (Some (js "mode")) (Some (js "Whitelist")) server_init)
      as (H & _).
    exact H.
  - destruct (cli_main_effect stripping_wire (env " k3y")
                (JString (js " k3y")) via (Some (js "block"))
                (Some (js "9.9.9.9")) server_init) as (H & _).
    exact H.
Defined.

Lemma blank_ended_nonempty k : blank_ended k = true → k ≠ [].
Proof. by intros H ->. Qed.

(** X20. The keys of the tools and of the server, over a wire that
    delivers visible characters as they are and strips the blanks around a
    value. When no admin key is configured anywhere, the command-line tool
    presents the key the server expects, and the interactive tool presents
    another one, so each of its requests is answered 401 and changes
    nothing. When the same key of at most 256 visible characters is
    configured for a tool and for the server, the requests of the tool are
    authorized. When
    the same key is configured for both and it starts or ends with a blank,
    no request of a tool is authorized: the key arrives without the
    blank. *)
Theorem tool_default_keys
    (wire : Wire) (env : Env) (via : Request) (data : list (string * jsval))
    (st : ServerState) :
  header_transparent wire → header_stripped wire →
  (ADMIN_KEY env = None →
   (∃ req, makeRequest wire (cli_ADMIN_KEY None) via data = Some req
           ∧ authorized env req)
   ∧ ∃ req, makeRequest wire (menu_ADMIN_KEY None) via data = Some req
            ∧ ∀ r, is_admin r = true →
                   app env r req st
                   = (respond 401 (ErrorBody "Invalid admin key"), st))
  ∧ (∀ k, k ≠ [] → forallb visible k = true → length k ≤ 256 →
          ADMIN_KEY env = Some k →
          (∃ req, makeRequest wire (cli_ADMIN_KEY (Some k)) via data = Some req
                  ∧ authorized env req)
          ∧ ∃ req, makeRequest wire (menu_ADMIN_KEY (Some k)) via data
                   = Some req
                   ∧ authorized env req)
  ∧ (∀ k req, blank_ended k = true → ADMIN_KEY env = Some k →
              makeRequest wire (cli_ADMIN_KEY (Some k)) via data = Some req
              ∨ makeRequest wire (menu_ADMIN_KEY (Some k)) via data = Some req →
              ¬ authorized env req).
Proof.
  intros Htransparent Hstripped. split_and!.
  - intros Hnone. split.
    + unfold makeRequest, cli_ADMIN_KEY. simpl.
      rewrite Htransparent by (vm_compute; first [reflexivity | lia]).
      eexists. split; [reflexivity |].
      unfold authorized, expectedAdminKey. by rewrite Hnone.
    + unfold makeRequest, menu_ADMIN_KEY. simpl.
      rewrite Htransparent by (vm_compute; first [reflexivity | lia]).
      eexists. split; [reflexivity |].
      intros r Hr. apply admin_unauthorized; [done |].
      unfold authorized, expectedAdminKey. rewrite Hnone.
      vm_compute. congruence.
  - intros [| c k] Hk Hvisible Hlength Hsome; [done |].
    change (cli_ADMIN_KEY (Some (c :: k))) with (JString (c :: k)).
    change (menu_ADMIN_KEY (Some (c :: k))) with (JString (c :: k)).
    unfold makeRequest. cbn [string_value].
    rewrite (Htransparent _ Hvisible Hlength).
    split; (eexists; split; [reflexivity |]);
      unfold authorized, expectedAdminKey; by rewrite Hsome.
  - intros k req Hblank Hsome Hreq.
    pose proof (blank_ended_nonempty k Hblank) as Hk.
    assert (Hkey : cli_ADMIN_KEY (Some k) = JString k
                   ∧ menu_ADMIN_KEY (Some k) = JString k)
      by (destruct k; [done | by split]).
    destruct Hkey as [Hcli Hmenu]. rewrite Hcli, Hmenu in Hreq.
    assert (Hreq' : makeRequest wire (JString k) via data = Some req)
      by (by destruct Hreq).
    apply makeRequest_Some in Hreq' as (k' & Hwire & Hheader & _).
    apply Hstripped in Hwire.
    unfold authorized, expectedAdminKey. rewrite Hheader, Hsome.
    destruct k as [| c k]; [done |]. simpl. intros [= ->].
    by rewrite Hblank in Hwire.
Qed.

(** Instances of X20 over [stripping_wire]: the interactive tool asking
    for the status of a server without a configured admin key, and the
    command-line tool with a key that starts with a blank. *)
Lemma tool_default_keys_witness :
  let via := mkRequest None None None None None None None [] in
  (∃ req, makeRequest stripping_wire (menu_ADMIN_KEY None) via [] = Some req
          ∧ app (mkEnv None None None) GET_admin_ip_status req server_init
            = (respond 401 (ErrorBody "Invalid admin key"), server_init))
  ∧ (∀ req, makeRequest stripping_wire (cli_ADMIN_KEY (Some (js " k3y")))
              via [] = Some req →
            ¬ authorized (mkEnv (Some (js " k3y")) None None) req).
Proof.
  intros via. split.
  - destruct (tool_default_keys stripping_wire (mkEnv None None None) via []
                server_init stripping_wire_transparent
                stripping_wire_stripped) as (H & _).
    destruct (H eq_refl) as [_ (req & Hreq & H401)].
    exists req. split; [exact Hreq | exact (H401 GET_admin_ip_status eq_refl)].
  - intros req Hreq.
    destruct (tool_default_keys stripping_wire
                (mkEnv (Some (js " k3y")) None None) via []
                server_init stripping_wire_transparent
                stripping_wire_stripped) as (_ & _ & H).
    apply (H (js " k3y") req); [reflexivity | reflexivity | by left].
Defined.

(** ** The test script *)

Section TestScript.
Variables (wire : Wire) (env : Env) (via : Request).

Lemma test_request_Some K tc req :
  test_request wire K via tc = Some req →
  clientIP req = clientIP via ∧ body req = tc_data tc
  ∧ ∃ k, wire (if useInvalidKey tc then js "invalid-key-test"
               else string_value K) = Some k
         ∧ x_api_key req = Some k.
Proof.
  unfold test_request. destruct (wire _) as [k |]; [| done].
  intros [= <-]. split_and!; [done | done |]. by exists k.
Qed.

(** A test case whose request is rejected before the notification. *)
Lemma test_step_rejected K discord n st tc req code error :
  test_request wire K via tc = Some req →
  app env POST_webhook_checkout req st
  = (respond code (ErrorBody error), st) →
  code = 400 ∨ code = 401 →
  test_step wire env K via discord (n, st) tc
  = (if expectedSuccess tc then n else S n, st).
Proof.
  intros Hreq Happ Hcode. unfold test_step. rewrite Hreq. cbn [fst snd].
  destruct (app env _ _ st) as [o' st']. injection Happ as -> ->.
  destruct Hcode as [-> | ->]; simpl; by destruct (expectedSuccess tc).
Qed.

(** A test case whose identifier is admitted and whose fields are strings,
    the post succeeding. *)
Lemma test_step_admitted K n st tc req x :
  test_request wire K via tc = Some req →
  well_formed x → x ∉ usedTransactionIds st →
  admission_call env (ipManager st) x POST_webhook_checkout req →
  interpolates (prop "customerName" (body req)) = true →
  interpolates (prop "customerEmail" (body req)) = true →
  interpolates (js_or (prop "customerDiscord" (body req))
                      (JString (js "Not provided"))) = true →
  test_step wire env K via FetchOk (n, st) tc
  = (if expectedSuccess tc then S n else n,
     {| usedTransactionIds := usedTransactionIds st ++ [x];
        ipManager := ipManager st |}).
Proof.
  intros Hreq Hwf Hfresh Hcall Hn He Hd.
  destruct (checkout_admits env x _ st Hwf Hfresh Hcall Hn He Hd)
    as (url & payload & resume & Happ & Hok).
  unfold test_step. rewrite Hreq. cbn [fst snd].
  destruct (app env _ _ st) as [o' st']. injection Happ as -> ->.
  rewrite Hok. simpl. unfold JSSet.add. apply has_false in Hfresh as ->.
  by destruct (expectedSuccess tc).
Qed.

(** A test case whose identifier is in the ledger. *)
Lemma test_step_used K discord n st tc req x :
  test_request wire K via tc = Some req →
  well_formed x → x ∈ usedTransactionIds st →
  admission_call env (ipManager st) x POST_webhook_checkout req →
  test_step wire env K via discord (n, st) tc
  = (if expectedSuccess tc then n else S n, st).
Proof.
  intros Hreq Hwf Hused Hcall.
  destruct (admission_call_app env x _ _ st Hwf Hcall) as (o & Happ & _ & Hau).
  apply has_true in Hused. rewrite Hused in Happ, Hau.
  apply is_already_used_inv in Hau. subst o.
  eapply test_step_rejected; [exact Hreq | | by left].
  rewrite Happ. by destruct st.
Qed.
End TestScript.
Lemma generated_id_well_formed now random :
  length now = 13 → Forall is_digit now →
  length random ≤ 9 →
  Forall (λ c, is_digit c ∨ (0x41 ≤ c ≤ 0x5A)%N) random →
  well_formed (js "TXN-" ++ now ++ js "-" ++ random).
Proof.
  intros Hlen Hnow Hlenr Hrandom. split.
  - rewrite !length_app. change (length (js "TXN-")) with 4.
    change (length (js "-")) with 1. lia.
  - repeat (apply Forall_app; split).
    + eapply bool_decide_eq_true_1. vm_compute. reflexivity.
    + eapply Forall_impl; [exact Hnow |]. unfold is_digit. intros c Hc.
      apply in_class_charset. unfold in_class.
      apply orb_true_iff. left. apply orb_true_iff. left.
      apply orb_true_iff. right. apply andb_true_iff.
      split; apply N.leb_le; lia.
    + eapply bool_decide_eq_true_1. vm_compute. reflexivity.
    + eapply Forall_impl; [exact Hrandom |]. unfold is_digit. intros c Hc.
      apply in_class_charset. unfold in_class.
      destruct Hc as [Hc | Hc].
      * apply orb_true_iff. left. apply orb_true_iff. left.
        apply orb_true_iff. right. apply andb_true_iff.
        split; apply N.leb_le; lia.
      * apply orb_true_iff. left. apply orb_true_iff. left.
        apply orb_true_iff. left. apply orb_true_iff. right.
        apply andb_true_iff. split; apply N.leb_le; lia.
Qed.

Lemma checkout_rejects env req st error :
  isIPAllowed (clientIP req) (ipManager st) = true →
  of_option (x_api_key req) = expectedApiKey env →
  truthy (prop "transactionId" (body req)) = true →
  truthy (prop "customerName" (body req)) = true →
  truthy (prop "customerEmail" (body req)) = true →
  validate_and_admit (usedTransactionIds st) (prop "transactionId" (body req))
  = (Rejected error, usedTransactionIds st) →
  app env POST_webhook_checkout req st = (respond 400 (ErrorBody error), st).
Proof.
  intros Hgate Hkey%api_key_strict_eq Hid Hname Hemail Hrej. simpl.
  unfold checkIPAccess, webhook_checkout.
  by rewrite Hgate, Hkey, Hid, Hname, Hemail, Hrej.
Qed.

Lemma checkout_missing env req st :
  isIPAllowed (clientIP req) (ipManager st) = true →
  of_option (x_api_key req) = expectedApiKey env →
  truthy (prop "customerEmail" (body req)) = false →
  app env POST_webhook_checkout req st
  = (respond 400
       (ErrorBody
          "Missing required fields: transactionId, customerName, customerEmail"),
     st).
Proof.
  intros Hgate Hkey%api_key_strict_eq Hemail. simpl.
  unfold checkIPAccess, webhook_checkout.
  by rewrite Hgate, Hkey, Hemail, !orb_true_r.
Qed.

Lemma checkout_bad_key env req st :
  isIPAllowed (clientIP req) (ipManager st) = true →
  of_option (x_api_key req) ≠ expectedApiKey env →
  app env POST_webhook_checkout req st
  = (respond 401 (ErrorBody "Invalid API key"), st).
Proof.
  intros Hgate Hkey. rewrite <- api_key_strict_eq in Hkey.
  apply not_true_is_false in Hkey. simpl.
  unfold checkIPAccess, webhook_checkout. by rewrite Hgate, Hkey.
Qed.

(** The request of a test case once the wire has delivered [key]. *)
Lemma test_request_wire wire K via tc key :
  wire (if useInvalidKey tc then js "invalid-key-test" else string_value K)
  = Some key →
  test_request wire K via tc
  = Some {| x_forwarded_for := x_forwarded_for via;
            x_real_ip := x_real_ip via;
            x_admin_key := None;
            x_api_key := Some key;
            connection_remoteAddress := connection_remoteAddress via;
            socket_remoteAddress := socket_remoteAddress via;
            req_ip := req_ip via;
            body := tc_data tc |}.
Proof. unfold test_request. by intros ->. Qed.

(** The script against a server that lets its address through and at which
    its key arrives as the key the server expects, the posts to the chat
    webhook succeeding: five of the six cases pass whatever the ledger, and
    the third passes when its identifier is not in the ledger. *)
Lemma script_run wire env via K k now1 random1 now5 now6 st :
  header_transparent wire →
  wire (string_value K) = Some k → JString k = expectedApiKey env →
  expectedApiKey env ≠ JString (js "invalid-key-test") →
  isIPAllowed (clientIP via) (ipManager st) = true →
  length now1 = 13 → Forall is_digit now1 →
  length random1 ≤ 9 →
  Forall (λ c, is_digit c ∨ (0x41 ≤ c ≤ 0x5A)%N) random1 →
  let id1 := js "TXN-" ++ now1 ++ js "-" ++ random1 in
  let dup := js "TXN-DUPLICATE-TEST" in
  id1 ∉ usedTransactionIds st →
  testTransactionValidation wire env K via FetchOk
    (testCases now1 random1 now5 now6) st
  = if JSSet.has dup (usedTransactionIds st)
    then (5, {| usedTransactionIds := usedTransactionIds st ++ [id1];
                ipManager := ipManager st |})
    else (6, {| usedTransactionIds := usedTransactionIds st ++ [id1; dup];
                ipManager := ipManager st |}).
Proof.
  intros Htransparent Hwire HK Hinvalid Hgate Hlen Hnow Hlenr Hrandom id1 dup
    Hfresh.
  pose proof (generated_id_well_formed now1 random1 Hlen Hnow Hlenr Hrandom)
    as Hwf1.
  assert (Hwfd : well_formed dup).
  { split; [vm_compute; lia |].
    eapply bool_decide_eq_true_1. vm_compute. reflexivity. }
  assert (Hne : id1 ≠ dup).
  { destruct now1 as [| c now1]; [done |].
    apply Forall_cons in Hnow as [Hc _]. unfold is_digit in Hc.
    intros [= Heq]. lia. }
  set (reqOf := λ key tc,
         {| x_forwarded_for := x_forwarded_for via;
            x_real_ip := x_real_ip via;
            x_admin_key := None;
            x_api_key := Some key;
            connection_remoteAddress := connection_remoteAddress via;
            socket_remoteAddress := socket_remoteAddress via;
            req_ip := req_ip via;
            body := tc_data tc |}).
  assert (Hreq : ∀ tc, useInvalidKey tc = false →
            test_request wire K via tc = Some (reqOf k tc)).
  { intros tc Htc. apply test_request_wire. by rewrite Htc. }
  assert (Hreq' : ∀ tc, useInvalidKey tc = true →
            test_request wire K via tc
            = Some (reqOf (js "invalid-key-test") tc)).
  { intros tc Htc. apply test_request_wire. rewrite Htc.
    apply Htransparent; [vm_compute; reflexivity | vm_compute; lia]. }
  assert (Hkey : ∀ tc, of_option (x_api_key (reqOf k tc)) = expectedApiKey env)
    by (intros tc; exact HK).
  set (st1 := {| usedTransactionIds := usedTransactionIds st ++ [id1];
                 ipManager := ipManager st |}).
  unfold testTransactionValidation, testCases. cbn [foldl].
  (* case 1 *)
  erewrite (test_step_admitted wire env via K 0 st _ _ id1);
    [| by apply Hreq | exact Hwf1 | exact Hfresh | | done | done | done];
    cycle 1.
  { split_and!; [exact Hgate | apply Hkey | | right; by split_and!].
    eexists. split_and!; [reflexivity | done | by apply trim_charset, Hwf1]. }
  cbn [expectedSuccess]. fold id1 st1.
  (* case 2 *)
  erewrite (test_step_rejected wire env via K FetchOk 1 st1);
    [| by apply Hreq | |]; cycle 1.
  { apply checkout_rejects; [exact Hgate | apply Hkey | done .. |].
    reflexivity. }
  { by left. }
  cbn [expectedSuccess].
  destruct (JSSet.has dup (usedTransactionIds st)) eqn:Hdup.
  - (* the identifier of cases 3 and 4 is in the ledger *)
    assert (Hused : dup ∈ usedTransactionIds st1).
    { simpl. apply elem_of_app. left. by apply has_true. }
    assert (Hcall : ∀ tc,
              prop "transactionId" (tc_data tc) = JString dup →
              truthy (prop "customerName" (tc_data tc)) = true →
              truthy (prop "customerEmail" (tc_data tc)) = true →
              admission_call env (ipManager st1) dup POST_webhook_checkout
                (reqOf k tc)).
    { intros tc Hid Hname Hemail.
      split_and!; [exact Hgate | apply Hkey | | right; by split_and!].
      exists dup. by split_and!. }
    erewrite (test_step_used wire env via K FetchOk 2 st1 _ _ dup);
      [| by apply Hreq | exact Hwfd | exact Hused | by apply Hcall].
    erewrite (test_step_used wire env via K FetchOk _ st1 _ _ dup);
      [| by apply Hreq | exact Hwfd | exact Hused | by apply Hcall].
    cbn [expectedSuccess].
    erewrite (test_step_rejected wire env via K FetchOk _ st1);
      [| by apply Hreq | |]; cycle 1.
    { apply checkout_missing; [exact Hgate | apply Hkey | done]. }
    { by left. }
    erewrite (test_step_rejected wire env via K FetchOk _ st1);
      [| by apply Hreq' | |]; cycle 1.
    { apply checkout_bad_key; [exact Hgate |]. simpl.
      intros Heq. apply Hinvalid. by rewrite <- Heq. }
    { by right. }
    done.
  - (* it is not *)
    assert (Hfreshd : dup ∉ usedTransactionIds st1).
    { simpl. apply has_false in Hdup. rewrite elem_of_app.
      intros [? | ?%list_elem_of_singleton]; [done | by apply Hne]. }
    set (st2 := {| usedTransactionIds := usedTransactionIds st1 ++ [dup];
                   ipManager := ipManager st1 |}).
    assert (Hcall : ∀ g tc,
              g = ipManager st →
              prop "transactionId" (tc_data tc) = JString dup →
              truthy (prop "customerName" (tc_data tc)) = true →
              truthy (prop "customerEmail" (tc_data tc)) = true →
              admission_call env g dup POST_webhook_checkout (reqOf k tc)).
    { intros g tc -> Hid Hname Hemail.
      split_and!; [exact Hgate | apply Hkey | | right; by split_and!].
      exists dup. by split_and!. }
    erewrite (test_step_admitted wire env via K 2 st1 _ _ dup);
      [| by apply Hreq | exact Hwfd | exact Hfreshd | by apply Hcall
       | done | done | done].
    fold st2. cbn [expectedSuccess].
    assert (Hused : dup ∈ usedTransactionIds st2).
    { simpl. rewrite !elem_of_app. right. by apply list_elem_of_singleton. }
    erewrite (test_step_used wire env via K FetchOk 3 st2 _ _ dup);
      [| by apply Hreq | exact Hwfd | exact Hused | by apply Hcall].
    cbn [expectedSuccess].
    erewrite (test_step_rejected wire env via K FetchOk _ st2);
      [| by apply Hreq | |]; cycle 1.
    { apply checkout_missing; [exact Hgate | apply Hkey | done]. }
    { by left. }
    erewrite (test_step_rejected wire env via K FetchOk _ st2);
      [| by apply Hreq' | |]; cycle 1.
    { apply checkout_bad_key; [exact Hgate |]. simpl.
      intros Heq. apply Hinvalid. by rewrite <- Heq. }
    { by right. }
    cbn [expectedSuccess]. unfold st2, st1. simpl.
    by rewrite <- app_assoc.
Qed.

(** X21. The test script of the repository against a server that lets its
    address through, over a wire that delivers visible characters as they
    are and the key of the script as the key the server expects, with the
    posts to the chat webhook succeeding: when neither the generated
    identifier nor TXN-DUPLICATE-TEST is in the ledger, all six cases pass
    and both identifiers are in the ledger afterwards; run again against
    the same process, with a newly generated identifier, five cases pass:
    the third is answered that its identifier has already been used. *)
Theorem test_script_passes_once
    (wire : Wire) (env : Env) (via : Request) (K : jsval) (k : jsstring)
    (st : ServerState)
    (now1 random1 now5 now6 now1' random1' now5' now6' : jsstring) :
  header_transparent wire →
  wire (string_value K) = Some k → JString k = expectedApiKey env →
  expectedApiKey env ≠ JString (js "invalid-key-test") →
  isIPAllowed (clientIP via) (ipManager st) = true →
  length now1 = 13 → Forall is_digit now1 →
  length random1 ≤ 9 →
  Forall (λ c, is_digit c ∨ (0x41 ≤ c ≤ 0x5A)%N) random1 →
  length now1' = 13 → Forall is_digit now1' →
  length random1' ≤ 9 →
  Forall (λ c, is_digit c ∨ (0x41 ≤ c ≤ 0x5A)%N) random1' →
  let id1 := js "TXN-" ++ now1 ++ js "-" ++ random1 in
  let id1' := js "TXN-" ++ now1' ++ js "-" ++ random1' in
  let dup := js "TXN-DUPLICATE-TEST" in
  id1 ∉ usedTransactionIds st → dup ∉ usedTransactionIds st →
  id1' ∉ usedTransactionIds st → id1' ≠ id1 →
  let first := testTransactionValidation wire env K via FetchOk
                 (testCases now1 random1 now5 now6) st in
  let second := testTransactionValidation wire env K via FetchOk
                  (testCases now1' random1' now5' now6') first.2 in
  first.1 = 6
  ∧ usedTransactionIds first.2 = usedTransactionIds st ++ [id1; dup]
  ∧ second.1 = 5.
Proof.
  intros Htransparent Hwire HK Hinvalid Hgate Hlen Hnow Hlenr Hrandom
    Hlen' Hnow' Hlenr' Hrandom' id1 id1' dup Hfresh Hdup Hfresh' Hne.
  cbv zeta.
  rewrite (script_run wire env via K k now1 random1 now5 now6 st) by done.
  apply has_false in Hdup as Hdup'. fold dup. rewrite Hdup'. cbn [fst snd].
  split_and!; [done | done |].
  rewrite (script_run wire env via K k); try done.
  - cbn [usedTransactionIds].
    match goal with
    | |- context [JSSet.has ?a ?b] =>
        assert (JSSet.has a b = true) as ->; [| done]
    end.
    apply has_true. rewrite elem_of_app. right.
    apply elem_of_cons. right. by apply list_elem_of_singleton.
  - cbn [usedTransactionIds]. rewrite elem_of_app, !elem_of_cons.
    intros [? | [? | [Heq | ?%elem_of_nil]]]; try done.
    destruct now1' as [| c n]; [done |].
    apply Forall_cons in Hnow' as [Hc _]. unfold is_digit in Hc.
    unfold id1', dup in Heq. injection Heq as Heq. lia.
Qed.

(** An instance of X21 on a fresh server with the built-in key, over
    [stripping_wire]. *)
Lemma test_script_passes_once_witness :
  let env := {| ADMIN_KEY := None; API_KEY := None;
                DISCORD_WEBHOOK_URL := None |} in
  let via := mkRequest None None None None (Some (js "127.0.0.1"))
               (Some (js "127.0.0.1")) (Some (js "127.0.0.1")) [] in
  let first := testTransactionValidation stripping_wire env
                 (expectedApiKey env) via FetchOk
                 (testCases (js "1700000000000") (js "K3J9X0QZ1")
                    (js "1700000000000") (js "1700000000000")) server_init in
  let second := testTransactionValidation stripping_wire env
                  (expectedApiKey env) via FetchOk
                  (testCases (js "1700000000999") (js "ZZ81")
                     (js "1700000000999") (js "1700000000999")) first.2 in
  first.1 = 6 ∧ second.1 = 5.
Proof.
  intros env via first second.
  assert (Hd : ∀ s, bool_decide (Forall is_digit s) = true → Forall is_digit s)
    by (intros s; apply bool_decide_eq_true_1).
  assert (Hr : ∀ s, bool_decide
                      (Forall (λ c, is_digit c ∨ (0x41 ≤ c ≤ 0x5A)%N) s) = true →
                    Forall (λ c, is_digit c ∨ (0x41 ≤ c ≤ 0x5A)%N) s)
    by (intros s; apply bool_decide_eq_true_1).
  destruct (test_script_passes_once stripping_wire env via
              (expectedApiKey env) (string_value (expectedApiKey env))
              server_init
              (js "1700000000000") (js "K3J9X0QZ1")
              (js "1700000000000") (js "1700000000000")
              (js "1700000000999") (js "ZZ81")
              (js "1700000000999") (js "1700000000999"))
    as (H1 & _ & H2);
    [ exact stripping_wire_transparent
    | vm_compute; reflexivity | reflexivity
    | vm_compute; congruence | reflexivity
    | reflexivity | apply Hd; vm_compute; reflexivity
    | vm_compute; lia | apply Hr; vm_compute; reflexivity
    | reflexivity | apply Hd; vm_compute; reflexivity
    | vm_compute; lia | apply Hr; vm_compute; reflexivity
    | apply not_elem_of_nil | apply not_elem_of_nil | apply not_elem_of_nil
    | vm_compute; congruence | ].
  split; [exact H1 | exact H2].
Defined.
